(** * ember-frost-bunsen: the abstract input component

    A shallow embedding of [addon/components/inputs/abstract-input.js]:
    the transform engine ([applyTransforms], [applyTransform],
    [applyStringTransform], [applyObjectTransform]), the parsing of change
    events ([parseValue]), the computed properties [transformedValue] and
    [renderErrorMessage], and the three actions [onFocusOut], [onFocusIn]
    and [onChange].

    JavaScript values are an inductive type; plain objects are finite maps
    from property names to values, so that deep equality of two values is
    equality of their representations.  Code that can throw or log runs in a
    small writer-and-exception monad [Eff]. *)

From stdpp Require Import gmap strings list fin_maps pretty.
From Stdlib Require Import ZArith.

Open Scope string_scope.

(** ** JavaScript values *)

(** Numbers are modelled by their integer values; the component never does
    arithmetic, it only compares a [length] with [0] and tests truthiness. *)
#[warnings="-register-all"]
Inductive JsVal : Type :=
  | JUndefined
  | JNull
  | JBool (b : bool)
  | JNum (n : Z)
  | JStr (s : string)
  | JArr (l : list JsVal)
  | JObj (m : gmap string JsVal).

#[global] Instance JsVal_inhabited : Inhabited JsVal := populate JUndefined.

#[global] Instance JsVal_eq_dec : EqDecision JsVal.
Proof.
  refine (fix go (x y : JsVal) {struct x} : Decision (x = y) :=
    let _ : EqDecision JsVal := @go in
    match x, y with
    | JUndefined, JUndefined => left _
    | JNull, JNull => left _
    | JBool a, JBool b => cast_if (decide (a = b))
    | JNum a, JNum b => cast_if (decide (a = b))
    | JStr a, JStr b => cast_if (decide (a = b))
    | JArr a, JArr b => cast_if (decide (a = b))
    | JObj a, JObj b => cast_if (decide (a = b))
    | _, _ => right _
    end); congruence.
Defined.

(** ** Completions and effects *)

Inductive JsError : Type :=
  | TypeError
  | SyntaxError.

Inductive Completion (A : Type) : Type :=
  | Normal (a : A)
  | Throw (e : JsError).
Arguments Normal {A} a.
Arguments Throw {A} e.

(** What a method of the component does besides returning: a call of
    [Logger.warn], a call of [Logger.debug] (with a message or with a caught
    error), or a call of the [onChange]
    function the parent form passed in. *)
Inductive Effect : Type :=
  | LogWarn (msg : string) (arg : JsVal)
  | LogDebug (msg : string)
  | LogDebugError (err : JsError)
  | CallOnChange (id value : JsVal).

Record Eff (A : Type) : Type := mkEff {
  effects : list Effect;
  outcome : Completion A
}.
Arguments mkEff {A} effects outcome.
Arguments effects {A} e.
Arguments outcome {A} e.

#[global] Instance Eff_ret : MRet Eff := λ A a, mkEff [] (Normal a).

#[global] Instance Eff_bind : MBind Eff := λ A B f m,
  match outcome m with
  | Normal a => mkEff (effects m ++ effects (f a)) (outcome (f a))
  | Throw e => mkEff (effects m) (Throw e)
  end.

Definition throw {A : Type} (e : JsError) : Eff A := mkEff [] (Throw e).

Definition perform (ef : Effect) : Eff () := mkEff [ef] (Normal ()).

Definition lift {A : Type} (c : Completion A) : Eff A := mkEff [] c.

(** [try { body } catch (err) { handler(err) }] *)
Definition try_catch {A : Type} (body : Eff A) (handler : JsError → Eff A) : Eff A :=
  match outcome body with
  | Normal a => body
  | Throw e => mkEff (effects body ++ effects (handler e)) (outcome (handler e))
  end.

(** The value of a completion that is not an exception. *)
Definition normal {A : Type} (c : Completion A) : option A :=
  match c with
  | Normal a => Some a
  | Throw _ => None
  end.

(** [list.forEach(x => ...)] with the state the callback updates: an
    exception in the callback ends the loop. *)
Fixpoint Eff_foldl {A B : Type} (callback : A → B → Eff A) (l : list B) (a : A) : Eff A :=
  match l with
  | [] => mret a
  | x :: l' => a' ← callback a x; Eff_foldl callback l' a'
  end.

(** The [onChange] calls among a list of effects, in order. *)
Definition notifications (efs : list Effect) : list (JsVal * JsVal) :=
  omap (λ ef, match ef with CallOnChange i v => Some (i, v) | _ => None end) efs.

(** The [Logger.warn] calls among a list of effects, in order. *)
Definition warnings (efs : list Effect) : list (string * JsVal) :=
  omap (λ ef, match ef with LogWarn s v => Some (s, v) | _ => None end) efs.

(** ** Primitive operations of the language *)

(** [ToBoolean]: what [if (x)], [!x] and [x || y] test. *)
Definition truthy (v : JsVal) : bool :=
  match v with
  | JUndefined | JNull => false
  | JBool b => b
  | JNum n => negb (n =? 0)%Z
  | JStr s => negb (bool_decide (s = ""))
  | JArr _ | JObj _ => true
  end.

Definition is_nullish (v : JsVal) : bool :=
  match v with
  | JUndefined | JNull => true
  | _ => false
  end.

(** Strings joined with a separator between them. *)
Fixpoint join_strings (sep : string) (l : list string) : string :=
  match l with
  | [] => ""
  | [s] => s
  | s :: l' => s +:+ sep +:+ join_strings sep l'
  end.

(** [ToString]. An array is its elements joined by commas, with [null] and
    [undefined] elements shown as the empty string. *)
Fixpoint ToString (v : JsVal) : string :=
  match v with
  | JUndefined => "undefined"
  | JNull => "null"
  | JBool true => "true"
  | JBool false => "false"
  | JNum n => pretty n
  | JStr s => s
  | JArr l =>
      join_strings ","
        ((fix elements (l : list JsVal) : list string :=
            match l with
            | [] => []
            | x :: l' =>
                (match x with
                 | JUndefined | JNull => ""
                 | _ => ToString x
                 end) :: elements l'
            end) l)
  | JObj _ => "[object Object]"
  end.

(** The own enumerable properties of a value: the entries of an object, the
    elements of an array under their indices, the characters of a string
    under theirs. *)
Definition own_props (v : JsVal) : gmap string JsVal :=
  match v with
  | JObj m => m
  | JArr l => list_to_map (imap (λ i x, (pretty i, x)) l)
  | JStr s =>
      list_to_map (imap (λ i ch, (pretty i, JStr (String ch "")))
                        (String.list_ascii_of_string s))
  | _ => ∅
  end.

(** [v[k]] for a [v] that is neither [null] nor [undefined]: an own
    property, or the [length] of an array or a string. None of the names the
    component reads is inherited from a prototype. *)
Definition js_get (v : JsVal) (k : string) : JsVal :=
  match v with
  | JArr l =>
      if bool_decide (k = "length") then JNum (Z.of_nat (length l))
      else default JUndefined (own_props v !! k)
  | JStr s =>
      if bool_decide (k = "length") then JNum (Z.of_nat (String.length s))
      else default JUndefined (own_props v !! k)
  | _ => default JUndefined (own_props v !! k)
  end.

(** [object[key] = value] on a plain object. The name [__proto__] is the
    accessor of the prototype: assigning to it changes at most the
    prototype and never makes an own property. *)
Definition js_assign (object : gmap string JsVal) (key : string) (value : JsVal)
    : gmap string JsVal :=
  if bool_decide (key = "__proto__") then object else <[key := value]> object.

(** [v.k]: reading a property of [null] or [undefined] throws. *)
Definition member (v : JsVal) (k : string) : Eff JsVal :=
  if is_nullish v then throw TypeError else mret (js_get v k).

(** [k in v]: throws unless [v] is an object or an array. *)
Definition js_in (k : string) (v : JsVal) : Eff bool :=
  match v with
  | JObj m => mret (bool_decide (is_Some (m !! k)))
  | JArr l =>
      mret (bool_decide (k = "length") || bool_decide (is_Some (own_props v !! k)))
  | _ => throw TypeError
  end.

(** [Object.keys(v)]. The order of the keys of a map is the order of
    [map_to_list]. *)
Definition Object_keys (v : JsVal) : Eff (list string) :=
  if is_nullish v then throw TypeError else mret (map_to_list (own_props v)).*1.

(** *** Strings *)

(** [split_from sep skip s]: the pieces of [s] between the occurrences of a
    non-empty [sep], scanning from the left; the first [skip] characters
    belong to an occurrence already found and are dropped. *)
Fixpoint split_from (sep : string) (skip : nat) (s : string) : list string :=
  match s with
  | "" => [""]
  | String a s' =>
      match skip with
      | S k => split_from sep k s'
      | O =>
          if String.prefix sep s
          then "" :: split_from sep (String.length sep - 1) s'
          else match split_from sep 0 s' with
               | p :: ps => String a p :: ps
               | [] => [String a ""]
               end
      end
  end.

(** [s.split(separator)]: one piece when the separator is [undefined], the
    characters of [s] when it is the empty string, else the pieces between
    its occurrences. *)
Definition String_split (s : string) (separator : JsVal) : list string :=
  match separator with
  | JUndefined => [s]
  | _ =>
      let sep := ToString separator in
      if bool_decide (sep = "")
      then (λ ch, String ch "") <$> String.list_ascii_of_string s
      else split_from sep 0 s
  end.

(** [pieces.join(separator)] for an array of strings; the separator is a
    comma when [undefined]. *)
Definition Array_join (pieces : list string) (separator : JsVal) : string :=
  match separator with
  | JUndefined => join_strings "," pieces
  | _ => join_strings (ToString separator) pieces
  end.

(** *** lodash *)

Definition isString (v : JsVal) : bool :=
  match v with JStr _ => true | _ => false end.

Definition isUndefined (v : JsVal) : bool :=
  match v with JUndefined => true | _ => false end.

(** [_.isEqual]: deep comparison. Values are represented canonically, so
    two values are deeply equal exactly when they are equal. *)
Definition isEqual (a b : JsVal) : bool := bool_decide (a = b).

(** [_.find(collection, predicate)] on an array. *)
Definition lodash_find (collection : list JsVal) (predicate : JsVal → bool) : JsVal :=
  default JUndefined (List.find predicate collection).

(** Following a list of property names, stopping at [null] or [undefined];
    the result is [undefined] unless the whole path was followed. *)
Fixpoint baseGet (object : JsVal) (path : list string) : JsVal :=
  match path with
  | [] => object
  | k :: path' => if is_nullish object then JUndefined else baseGet (js_get object k) path'
  end.

(** [_.get(object, path)] for a dotted path: when the whole path is itself a
    property name of the object it is read directly. *)
Definition lodash_get (object : JsVal) (path : string) : JsVal :=
  if is_nullish object then JUndefined
  else if bool_decide (is_Some (own_props object !! path)) then js_get object path
  else baseGet object (split_from "." 0 path).

(** Ember's [get(object, 'a.b.c')]. *)
Definition ember_get (object : JsVal) (path : string) : JsVal :=
  baseGet object (split_from "." 0 path).

(** ** What the component takes from outside *)

(** The regular-expression engine of the language and [parseVariables] of
    [bunsen-core/utils] are not part of this repository. The component is
    modelled over any implementation of them. *)
Class Externals : Type := {
  RegExp : Type;
  (** [new RegExp(pattern, flags)]; a malformed pattern throws. *)
  RegExp_new : JsVal → string → Completion RegExp;
  (** [value.replace(pattern, replacement)] for a string [value]. *)
  String_replace : string → RegExp → JsVal → string;
  (** [parseVariables(variables, template, startPath, returnsString)]; a
      template it cannot resolve throws. *)
  parseVariables : JsVal → JsVal → string → bool → Completion JsVal
}.

(** An engine for patterns without metacharacters, and a resolver that
    fills in [${id}] and [${value}] in a string template and throws on a
    template that is not a string, to run the model on examples. *)
Fixpoint replace_first (from to : string) (s : string) : string :=
  match s with
  | "" => ""
  | String a s' =>
      if String.prefix from s
      then to +:+ String.substring (String.length from) (String.length s) s
      else String a (replace_first from to s')
  end.

Definition literal_externals : Externals := {|
  RegExp := string * string;
  RegExp_new pattern flags := Normal (ToString pattern, flags);
  String_replace value pattern replacement :=
    if bool_decide (pattern.2 = "g")
    then join_strings (ToString replacement) (split_from pattern.1 0 value)
    else replace_first pattern.1 (ToString replacement) value;
  parseVariables variables template _ _ :=
    match template with
    | JStr t =>
        Normal
          (JStr (join_strings (ToString (js_get variables "value"))
                   (split_from "${value}" 0
                      (join_strings (ToString (js_get variables "id"))
                         (split_from "${id}" 0 t)))))
    | _ => Throw TypeError
    end
|}.

(** ** The component *)

(** The properties the parent form passes in ([propTypes]); a property that
    is not passed is [undefined]. *)
Record Attrs : Type := {
  a_bunsenId : JsVal;
  a_bunsenModel : JsVal;
  a_bunsenView : JsVal;
  a_cellConfig : JsVal;
  a_errorMessage : JsVal;
  a_formDisabled : JsVal;
  a_formHook : JsVal;
  a_label : JsVal;
  a_required : JsVal;
  a_showAllErrors : JsVal;
  a_value : JsVal
}.

Record Component : Type := {
  bunsenId : JsVal;
  bunsenModel : JsVal;
  bunsenView : JsVal;
  cellConfig : JsVal;
  errorMessage : JsVal;
  formDisabled : JsVal;
  formHook : JsVal;
  hook : JsVal;
  label : JsVal;
  required : JsVal;
  showAllErrors : JsVal;
  showErrorMessage : JsVal;
  value : JsVal
}.

Definition set_showErrorMessage (this : Component) (v : JsVal) : Component :=
  {| bunsenId := bunsenId this; bunsenModel := bunsenModel this;
     bunsenView := bunsenView this; cellConfig := cellConfig this;
     errorMessage := errorMessage this; formDisabled := formDisabled this;
     formHook := formHook this; hook := hook this; label := label this;
     required := required this; showAllErrors := showAllErrors this;
     showErrorMessage := v; value := value this |}.

Definition set_hook (this : Component) (v : JsVal) : Component :=
  {| bunsenId := bunsenId this; bunsenModel := bunsenModel this;
     bunsenView := bunsenView this; cellConfig := cellConfig this;
     errorMessage := errorMessage this; formDisabled := formDisabled this;
     formHook := formHook this; hook := v; label := label this;
     required := required this; showAllErrors := showAllErrors this;
     showErrorMessage := showErrorMessage this; value := value this |}.

Definition getDefaultProps : gmap string JsVal :=
  {[ "required" := JBool false; "showErrorMessage" := JBool false ]}.

(** A default applies to a property the parent left [undefined]. *)
Definition with_default (key : string) (given : JsVal) : JsVal :=
  if isUndefined given then default JUndefined (getDefaultProps !! key) else given.

(** The component as constructed from the parent's properties, before [init]. *)
Definition construct (a : Attrs) : Component :=
  {| bunsenId := a_bunsenId a; bunsenModel := a_bunsenModel a;
     bunsenView := a_bunsenView a; cellConfig := a_cellConfig a;
     errorMessage := a_errorMessage a; formDisabled := a_formDisabled a;
     formHook := a_formHook a; hook := JUndefined; label := a_label a;
     required := with_default "required" (a_required a);
     showAllErrors := a_showAllErrors a;
     showErrorMessage := with_default "showErrorMessage" JUndefined;
     value := a_value a |}.

(** *** Computed properties *)

Definition renderErrorMessage (errorMessage showErrorMessage showAllErrors : JsVal) : JsVal :=
  if negb (truthy showAllErrors) && negb (truthy showErrorMessage)
  then JNull
  else errorMessage.

Definition renderErrorMessage_of (this : Component) : JsVal :=
  renderErrorMessage (errorMessage this) (showErrorMessage this) (showAllErrors this).

(** *** Functions *)

Section Methods.
Context `{Externals}.

Definition getTemplateVariables (this : Component) (value : JsVal) : JsVal :=
  let id := bunsenId this in
  JObj {[ "id" := id; "value" := value ]}.

Definition applyObjectTransform (this : Component) (value transform : JsVal) : Eff JsVal :=
  let variables := getTemplateVariables this value in
  object ← member transform "object";
  keys ← Object_keys object;
  newObject ←
    Eff_foldl
      (λ newObject key,
         resolved ← lift (parseVariables variables (js_get object key) "" true);
         mret (js_assign newObject key resolved))
      keys ∅;
  mret (JObj newObject).

Definition applyStringTransform (value transform : JsVal) : Eff JsVal :=
  global ← member transform "global";
  let flags := if bool_decide (global = JBool false) then "" else "g" in
  if truthy (js_get transform "regex")
  then
    pattern ← lift (RegExp_new (js_get transform "from") flags);
    match value with
    | JStr s => mret (JStr (String_replace s pattern (js_get transform "to")))
    | _ => throw TypeError
    end
  else
    match value with
    | JStr s =>
        mret (JStr (Array_join (String_split s (js_get transform "from"))
                               (js_get transform "to")))
    | _ => throw TypeError
    end.

Definition applyTransform (this : Component) (value transform : JsVal) : Eff JsVal :=
  isObjectTransform ← js_in "object" transform;
  isStringTransform ←
    (hasFrom ← js_in "from" transform;
     if (hasFrom : bool) then js_in "to" transform else mret false);
  if (isObjectTransform : bool) then applyObjectTransform this value transform
  else if (isStringTransform : bool) then applyStringTransform value transform
  else
    _ ← perform (LogWarn "Unknown transform:" transform);
    mret value.

(** [array.reduce(callback, initialValue)] *)
Fixpoint Array_reduce (callback : JsVal → JsVal → Eff JsVal)
    (array : list JsVal) (accumulator : JsVal) : Eff JsVal :=
  match array with
  | [] => mret accumulator
  | x :: array' =>
      accumulator' ← callback accumulator x;
      Array_reduce callback array' accumulator'
  end.

Definition applyTransforms (this : Component) (value transforms : JsVal) : Eff JsVal :=
  if negb (truthy transforms) || bool_decide (js_get transforms "length" = JNum 0)
  then mret value
  else
    match transforms with
    | JArr l => Array_reduce (applyTransform this) l value
    | _ => throw TypeError
    end.

Definition transformedValue (this : Component) (value cellConfig : JsVal) : Eff JsVal :=
  if negb (isString value) then mret value
  else applyTransforms this value (lodash_get cellConfig "transforms.read").

Definition parseValue (data : JsVal) : Eff JsVal :=
  dataValue ← member data "value";
  mret (lodash_find [dataValue; lodash_get data "target.value"; data]
          (λ value, negb (isUndefined value))).

(** *** Events *)

(** [this._super(...arguments)] runs the [init] of the superclass, Ember's
    component with the prop-types mixin, which is not part of this
    repository: it is the parameter [_super], which may log, change the
    component or throw. *)
Definition init (_super : Component → Eff Component) (this : Component)
    : Eff Component :=
  this ← _super this;
  try_catch
    (segments ←
       match bunsenId this with
       | JStr id => mret (String_split id (JStr "."))
       | _ => throw TypeError
       end;
     mret (set_hook this
             (JStr (ToString (formHook this) +:+ "-" +:+
                    default "undefined" (last segments)))))
    (λ err, _ ← perform (LogDebugError err); mret this).

(** The [didRender] of the superclass, which [this._super] runs first, is
    the empty hook of Ember's component. *)
Definition didRender (this : Component) : Eff () :=
  perform (LogDebug "AbstractInput::didRender() called").

(** *** Actions *)

Definition onFocusOut (this : Component) : Component :=
  if negb (truthy (showErrorMessage this))
  then set_showErrorMessage this (JBool true)
  else this.

Definition onFocusIn (this : Component) : Component :=
  if truthy (showErrorMessage this)
  then set_showErrorMessage this (JBool false)
  else this.

Definition onChange (this : Component) (e : JsVal) : Eff () :=
  let bunsenId := bunsenId this in
  newValue ← parseValue e;
  let _ := getTemplateVariables this newValue in
  let transforms := ember_get (cellConfig this) "transforms.write" in
  transformedNewValue ← applyTransforms this newValue transforms;
  let oldValue := value this in
  if negb (isEqual transformedNewValue oldValue)
  then perform (CallOnChange bunsenId transformedNewValue)
  else mret ().

(** *** The life of a component *)

Inductive Event : Type :=
  | DidRender
  | FocusOut
  | FocusIn
  | Change (e : JsVal).

(** One event handled: the component afterwards and what the handler did.
    An exception thrown by a handler leaves the component as it is. *)
Definition dispatch (this : Component) (ev : Event) : Component * list Effect :=
  match ev with
  | DidRender => (this, effects (didRender this))
  | FocusOut => (onFocusOut this, [])
  | FocusIn => (onFocusIn this, [])
  | Change e => (this, effects (onChange this e))
  end.

Definition run (this : Component) (evs : list Event) : Component * list Effect :=
  foldl (λ (st : Component * list Effect) ev,
           let r := dispatch st.1 ev in (r.1, (st.2 ++ r.2)%list))
        (this, []) evs.

(** A component created from the parent's properties and initialised. The
    defaults the superclass applies are those of [construct]; what it logs
    is no part of the component. *)
Definition create (a : Attrs) : Component :=
  match outcome (init mret (construct a)) with
  | Normal this => this
  | Throw _ => construct a
  end.

End Methods.

(** *** The other computed properties *)

Definition defaultClassNames : JsVal :=
  JObj {[ "inputWrapper" := JStr "left-input"; "labelWrapper" := JStr "left-label" ]}.

(** [a || b]: the first operand when it is truthy, else the second. *)
Definition js_or (a b : JsVal) : JsVal := if truthy a then a else b.

Definition disabled (formDisabled cellConfig : JsVal) : JsVal :=
  js_or formDisabled (lodash_get cellConfig "disabled").

Definition valueClassName (errorMessage : JsVal) : JsVal :=
  if truthy errorMessage then JStr "error" else JStr "".

(** [valueClassName] is computed from [renderErrorMessage]. *)
Definition valueClassName_of (this : Component) : JsVal :=
  valueClassName (renderErrorMessage_of this).

Definition inputWrapperClassName (cellConfig : JsVal) : JsVal :=
  js_or (lodash_get cellConfig "classNames.value")
        (js_get defaultClassNames "inputWrapper").

Definition labelWrapperClassName (cellConfig : JsVal) : JsVal :=
  js_or (lodash_get cellConfig "classNames.label")
        (js_get defaultClassNames "labelWrapper").

(** [getLabel] of [bunsen-core/utils] and [getCellDefaults] of
    [bunsen-core/validator/defaults] are not part of this repository. *)
Class LabelExternals : Type := {
  (** [getLabel(label, bunsenModel, bunsenId)] *)
  getLabel : JsVal → JsVal → JsVal → JsVal;
  (** The object [getCellDefaults()] returns. *)
  getCellDefaults : JsVal
}.

(** [_.defaults(object, ...sources)]: each source in turn gives its
    properties to the keys of the object that are missing or [undefined]. *)
Definition lodash_defaults (object : gmap string JsVal) (sources : list JsVal)
    : gmap string JsVal :=
  foldl (λ dest source,
           union_with (λ d s, Some (if isUndefined d then s else d))
                      dest (own_props source))
        object sources.

Definition renderLabel `{LabelExternals}
    (bunsenId cellConfig label bunsenModel : JsVal) : JsVal :=
  let config := JObj (lodash_defaults ∅ [cellConfig; getCellDefaults]) in
  let customLabel := js_or label (js_get config "label") in
  getLabel customLabel bunsenModel bunsenId.

(** ** Specifications in the words of the description *)

(** The transforms folded from the left: each step's output is the next
    step's input. *)
Definition fold_transforms `{Externals} (this : Component)
    (value : JsVal) (transforms : list JsVal) : Eff JsVal :=
  foldl (λ (acc : Eff JsVal) transform, x ← acc; applyTransform this x transform)
        (mret value) transforms.

(** [ReplaceAll from to s r]: [r] is [s] with every occurrence of [from],
    found scanning from the left, replaced by [to]. *)
Inductive ReplaceAll (from to : string) : string → string → Prop :=
  | ReplaceAll_end :
      ReplaceAll from to "" ""
  | ReplaceAll_occurrence s r :
      ReplaceAll from to s r →
      ReplaceAll from to (from +:+ s) (to +:+ r)
  | ReplaceAll_other a s r :
      String.prefix from (String a s) = false →
      ReplaceAll from to s r →
      ReplaceAll from to (String a s) (String a r).

(** A regular-expression replacement with the given flags. *)
Definition regex_replace `{Externals} (flags : string) (s : string) (from to : JsVal) : Eff JsVal :=
  pattern ← lift (RegExp_new from flags);
  mret (JStr (String_replace s pattern to)).

(** A computation that never calls the parent's [onChange]. *)
Definition silent {A : Type} (m : Eff A) : Prop :=
  notifications (effects m) = [].

(** ** Sample values *)

Definition object_of (entries : list (string * JsVal)) : JsVal :=
  JObj (list_to_map entries).

Definition sample_config : JsVal :=
  object_of [("transforms", object_of [
    ("read", JArr [object_of [("from", JStr "b"); ("to", JStr "a");
                              ("regex", JBool true); ("global", JBool false)]]);
    ("write", JArr [object_of [("from", JStr "a"); ("to", JStr "b")]])])].

Definition sample_attrs : Attrs :=
  {| a_bunsenId := JStr "foo.bar"; a_bunsenModel := object_of [];
     a_bunsenView := object_of []; a_cellConfig := sample_config;
     a_errorMessage := JStr "bad"; a_formDisabled := JUndefined;
     a_formHook := JStr "form"; a_label := JUndefined;
     a_required := JUndefined; a_showAllErrors := JUndefined;
     a_value := JStr "bbb" |}.

Definition sample_attrs_all_errors : Attrs :=
  {| a_bunsenId := JStr "foo.bar"; a_bunsenModel := object_of [];
     a_bunsenView := object_of []; a_cellConfig := sample_config;
     a_errorMessage := JStr "bad"; a_formDisabled := JUndefined;
     a_formHook := JStr "form"; a_label := JUndefined;
     a_required := JUndefined; a_showAllErrors := JBool true;
     a_value := JStr "bbb" |}.

Definition first_match_transform : JsVal :=
  object_of [("from", JStr "b"); ("to", JStr "a");
             ("regex", JBool true); ("global", JBool false)].

Definition every_match_transform : JsVal :=
  object_of [("from", JStr "b"); ("to", JStr "a"); ("regex", JBool true)].

Definition literal_transform : gmap string JsVal :=
  list_to_map [("from", JStr "an"); ("to", JStr "o")].

Definition label_transform : JsVal :=
  object_of [("object", object_of [("label", JStr "${id}: ${value}")])].

(** An object or an array: what the [in] operator accepts on its right. *)
Definition is_object (v : JsVal) : bool :=
  match v with
  | JObj _ | JArr _ => true
  | _ => false
  end.

(** The template variables and the resolution of one template against
    them, as [applyObjectTransform] does it. *)
Definition resolve_template `{Externals} (this : Component) (value template : JsVal)
    : Completion JsVal :=
  parseVariables (JObj {[ "id" := bunsenId this; "value" := value ]}) template "" true.

(** A superclass whose [init] warns about a missing [bunsenId]. *)
Definition warning_super (this : Component) : Eff Component :=
  if isUndefined (bunsenId this)
  then mkEff [LogWarn "Missing required property:" (JStr "bunsenId")] (Normal this)
  else mret this.

(** [sub] occurs in [s]. *)
Definition occurs (sub s : string) : Prop :=
  ∃ p r : string, s = p +:+ sub +:+ r.

Definition is_focus (ev : Event) : bool :=
  match ev with
  | FocusOut | FocusIn => true
  | _ => false
  end.

Definition is_change (ev : Event) : bool :=
  match ev with
  | Change _ => true
  | _ => false
  end.

(** A field without transforms and without an error message. *)
Definition plain_attrs : Attrs :=
  {| a_bunsenId := JStr "foo"; a_bunsenModel := object_of [];
     a_bunsenView := object_of []; a_cellConfig := object_of [];
     a_errorMessage := JNull; a_formDisabled := JUndefined;
     a_formHook := JUndefined; a_label := JUndefined;
     a_required := JUndefined; a_showAllErrors := JUndefined;
     a_value := JStr "abc" |}.

(** A field whose id was not passed. *)
Definition anonymous_attrs : Attrs :=
  {| a_bunsenId := JUndefined; a_bunsenModel := object_of [];
     a_bunsenView := object_of []; a_cellConfig := object_of [];
     a_errorMessage := JNull; a_formDisabled := JUndefined;
     a_formHook := JStr "form"; a_label := JUndefined;
     a_required := JUndefined; a_showAllErrors := JUndefined;
     a_value := JUndefined |}.

(** An engine like [literal_externals] that rejects the pattern ["("]. *)
Definition strict_externals : Externals := {|
  RegExp := string * string;
  RegExp_new pattern flags :=
    if bool_decide (ToString pattern = "(") then Throw SyntaxError
    else Normal (ToString pattern, flags);
  String_replace value pattern replacement :=
    if bool_decide (pattern.2 = "g")
    then join_strings (ToString replacement) (split_from pattern.1 0 value)
    else replace_first pattern.1 (ToString replacement) value;
  parseVariables variables template _ _ := Normal template
|}.

(** Labels for examples: the custom label when there is one, else the id. *)
Definition sample_labels : LabelExternals := {|
  getLabel label bunsenModel bunsenId := js_or label bunsenId;
  getCellDefaults := object_of [("label", JStr "default label")]
|}.

(** ** The monad *)

Lemma Eff_eta {A} (m : Eff A) : mkEff (effects m) (outcome m) = m.
Proof. by destruct m. Qed.

Lemma Eff_bind_ret_l {A B} (a : A) (f : A → Eff B) : mret a ≫= f = f a.
Proof. unfold mbind, Eff_bind, mret, Eff_ret. simpl. apply Eff_eta. Qed.

Lemma Eff_bind_ret_r {A} (m : Eff A) : m ≫= mret = m.
Proof.
  unfold mbind, Eff_bind, mret, Eff_ret. destruct m as [efs [a|e]]; simpl.
  - by rewrite app_nil_r.
  - done.
Qed.

Lemma Eff_bind_assoc {A B C} (m : Eff A) (f : A → Eff B) (g : B → Eff C) :
  (m ≫= f) ≫= g = m ≫= (λ a, f a ≫= g).
Proof.
  unfold mbind, Eff_bind. destruct m as [efs [a|e]]; simpl; [|done].
  destruct (f a) as [efs' [b|e]]; simpl; [|done].
  by rewrite app_assoc.
Qed.

Lemma Eff_bind_ext {A B} (m : Eff A) (f g : A → Eff B) :
  (∀ a, f a = g a) → m ≫= f = m ≫= g.
Proof.
  intros Hfg. unfold mbind, Eff_bind.
  destruct (outcome m) as [a|e]; [by rewrite Hfg|done].
Qed.

Lemma Eff_bind_throw {A B} (e : JsError) (f : A → Eff B) : throw e ≫= f = throw e.
Proof. done. Qed.

Lemma notifications_app (xs ys : list Effect) :
  notifications (xs ++ ys) = (notifications xs ++ notifications ys)%list.
Proof. apply omap_app. Qed.

(** ** Splitting and joining strings *)

Lemma prefix_append (p r : string) : String.prefix p (p +:+ r) = true.
Proof.
  induction p as [|a p IH]; simpl; [by destruct r|].
  destruct (Ascii.ascii_dec a a); [assumption|congruence].
Qed.

Lemma prefix_inv (p s : string) :
  String.prefix p s = true → ∃ r, s = p +:+ r.
Proof.
  revert s. induction p as [|a p IH]; intros s Hp.
  - by exists s.
  - destruct s as [|b s]; [done|]. simpl in Hp.
    destruct (Ascii.ascii_dec a b) as [->|]; [|done].
    destruct (IH _ Hp) as [r ->]. by exists r.
Qed.

Lemma append_nil_l (s : string) : "" +:+ s = s.
Proof. reflexivity. Qed.

Lemma append_cons (a : Ascii.ascii) (p s : string) :
  String a p +:+ s = String a (p +:+ s).
Proof. reflexivity. Qed.

Lemma length_append (p r : string) :
  String.length (p +:+ r) = String.length p + String.length r.
Proof. induction p as [|a p IH]; simpl; [done|by rewrite IH]. Qed.

Lemma split_from_skip (sep p s : string) :
  split_from sep (String.length p) (p +:+ s) = split_from sep 0 s.
Proof. induction p as [|a p IH]; simpl; [by destruct s|done]. Qed.

Lemma split_from_not_nil (sep : string) (k : nat) (s : string) :
  split_from sep k s ≠ [].
Proof.
  revert k. induction s as [|a s IH]; intros k; cbn [split_from]; [done|].
  destruct k; [|apply IH].
  destruct (String.prefix sep (String a s)); [done|].
  by destruct (split_from sep 0 s).
Qed.

Lemma split_from_occurrence (sep s : string) :
  sep ≠ "" → split_from sep 0 (sep +:+ s) = "" :: split_from sep 0 s.
Proof.
  intros Hsep. destruct sep as [|a sep]; [done|].
  rewrite append_cons. cbn [split_from].
  rewrite <- append_cons, prefix_append.
  cbn [String.length]. rewrite Nat.sub_1_r. cbn [Nat.pred].
  apply f_equal, split_from_skip.
Qed.

Lemma split_from_other (sep : string) (a : Ascii.ascii) (s : string) :
  String.prefix sep (String a s) = false →
  ∃ p ps, split_from sep 0 s = p :: ps ∧
          split_from sep 0 (String a s) = String a p :: ps.
Proof.
  intros Hp. cbn [split_from]. rewrite Hp.
  destruct (split_from sep 0 s) as [|p ps] eqn:E.
  - by apply split_from_not_nil in E.
  - by exists p, ps.
Qed.

Lemma join_strings_cons (sep p : string) (l : list string) :
  l ≠ [] → join_strings sep (p :: l) = p +:+ sep +:+ join_strings sep l.
Proof. by destruct l. Qed.

Lemma join_strings_cons_char (sep : string) (a : Ascii.ascii) (p : string) (l : list string) :
  join_strings sep (String a p :: l) = String a (join_strings sep (p :: l)).
Proof. by destruct l. Qed.

(** Splitting on a separator and joining with it again gives the string back. *)
Lemma join_split_from (sep s : string) :
  sep ≠ "" → join_strings sep (split_from sep 0 s) = s.
Proof.
  intros Hsep.
  remember (String.length s) as n eqn:Hn. revert s Hn.
  induction (lt_wf n) as [n _ IH]. intros s ->.
  destruct s as [|a s]; [done|].
  destruct (String.prefix sep (String a s)) eqn:Hp.
  - destruct (prefix_inv _ _ Hp) as [r Hr]. rewrite Hr.
    rewrite split_from_occurrence by done.
    rewrite join_strings_cons by apply split_from_not_nil.
    rewrite append_nil_l. f_equal.
    apply (IH (String.length r)); [|done].
    rewrite Hr, length_append. destruct sep; [done|simpl; lia].
  - destruct (split_from_other _ _ _ Hp) as (p & ps & E1 & E2).
    rewrite E2, join_strings_cons_char, <- E1. f_equal.
    apply (IH (String.length s)); [simpl; lia|done].
Qed.

Lemma ReplaceAll_split_join (from to s : string) :
  from ≠ "" → ReplaceAll from to s (join_strings to (split_from from 0 s)).
Proof.
  intros Hfrom.
  remember (String.length s) as n eqn:Hn. revert s Hn.
  induction (lt_wf n) as [n _ IH]. intros s ->.
  destruct s as [|a s]; [constructor|].
  destruct (String.prefix from (String a s)) eqn:Hp.
  - destruct (prefix_inv _ _ Hp) as [r Hr]. rewrite Hr.
    rewrite split_from_occurrence by done.
    rewrite join_strings_cons by apply split_from_not_nil.
    rewrite append_nil_l. constructor.
    apply (IH (String.length r)); [|done].
    rewrite Hr, length_append. destruct from; [done|simpl; lia].
  - destruct (split_from_other _ _ _ Hp) as (p & ps & E1 & E2).
    rewrite E2, join_strings_cons_char, <- E1.
    constructor; [done|].
    apply (IH (String.length s)); [simpl; lia|done].
Qed.

Lemma ReplaceAll_unique (from to s r : string) :
  from ≠ "" → ReplaceAll from to s r →
  r = join_strings to (split_from from 0 s).
Proof.
  intros Hfrom. induction 1 as [|s r _ IH|a s r Hp _ IH].
  - done.
  - rewrite split_from_occurrence by done.
    rewrite join_strings_cons by apply split_from_not_nil.
    by rewrite append_nil_l, IH.
  - destruct (split_from_other _ _ _ Hp) as (p & ps & E1 & E2).
    rewrite E2, join_strings_cons_char, <- E1. by rewrite IH.
Qed.

(** ** The transform engine *)

Section Transforms.
Context `{Externals}.
Implicit Types (this : Component) (value transform : JsVal).

Lemma Array_reduce_bind (f : JsVal → JsVal → Eff JsVal) (l : list JsVal)
    (m : Eff JsVal) :
  (x ← m; Array_reduce f l x) = foldl (λ (acc : Eff JsVal) t, x ← acc; f x t) m l.
Proof.
  revert m. induction l as [|t l IH]; intros m; simpl.
  - apply Eff_bind_ret_r.
  - rewrite <- IH. by rewrite Eff_bind_assoc.
Qed.

(** C2. [applyTransforms] returns the value unchanged when the transforms
    are [undefined], [null] or the empty array, and for an array of
    transforms it is the fold of [applyTransform] from the left, starting
    from the value. *)
Theorem applyTransforms_fold this value :
  applyTransforms this value JUndefined = mret value ∧
  applyTransforms this value JNull = mret value ∧
  applyTransforms this value (JArr []) = mret value ∧
  ∀ transforms : list JsVal,
    applyTransforms this value (JArr transforms)
    = fold_transforms this value transforms.
Proof.
  repeat split; try reflexivity.
  intros [|t l]; [reflexivity|].
  unfold applyTransforms, fold_transforms.
  rewrite <- Array_reduce_bind, Eff_bind_ret_l. reflexivity.
Qed.

(** C3. The read transforms are applied to a string only: for a value
    that is not a string (a number, a boolean, an object, [null], an array)
    [transformedValue] is the value itself, whatever the cell configures. *)
Theorem transformedValue_non_string this value cellConfig :
  isString value = false →
  transformedValue this value cellConfig = mret value.
Proof. intros Hv. unfold transformedValue. by rewrite Hv. Qed.

(** C4. For a transform whose [regex] is truthy the pattern is built
    without flags when [transform.global] is exactly [false], and with the
    global flag for every other [transform.global], [undefined] included. *)
Theorem applyStringTransform_regex_flags (s : string) transform :
  truthy (js_get transform "regex") = true →
  (js_get transform "global" = JBool false →
     applyStringTransform (JStr s) transform
     = regex_replace "" s (js_get transform "from") (js_get transform "to")) ∧
  (js_get transform "global" ≠ JBool false →
     applyStringTransform (JStr s) transform
     = regex_replace "g" s (js_get transform "from") (js_get transform "to")).
Proof.
  intros Hregex.
  assert (member transform "global" = mret (js_get transform "global")) as Hm.
  { unfold member. by destruct transform. }
  unfold applyStringTransform, regex_replace.
  rewrite Hm, Eff_bind_ret_l, Hregex.
  split; intros Hg.
  - by rewrite bool_decide_eq_true_2.
  - by rewrite bool_decide_eq_false_2.
Qed.

(** C5. A transform that is an object or an array, with no [object] key and
    without both a [from] and a [to] key, is unknown: [applyTransform] logs
    one warning and returns the value unchanged, without throwing. The [in]
    test answers ([js_in] returns) only for an object or an array. *)
Theorem applyTransform_unknown this value transform :
  js_in "object" transform = mret false →
  js_in "from" transform = mret false ∨ js_in "to" transform = mret false →
  applyTransform this value transform
  = mkEff [LogWarn "Unknown transform:" transform] (Normal value).
Proof.
  intros Hobject Hstring. unfold applyTransform.
  rewrite Hobject, Eff_bind_ret_l.
  destruct Hstring as [Hfrom|Hto].
  - by rewrite Hfrom, !Eff_bind_ret_l.
  - assert (∃ b : bool, js_in "from" transform = mret b) as [b Hb].
    { destruct transform; try discriminate Hto; eexists; reflexivity. }
    rewrite Hb, Eff_bind_ret_l.
    destruct b; by rewrite ?Hto, !Eff_bind_ret_l.
Qed.

(** C6. A string transform whose [regex] is falsy, applied to a string,
    splits the string on [transform.from] and joins the pieces with
    [transform.to]; when both are strings and [from] is not empty, that is
    the string with every occurrence of [from] replaced by [to]. *)
Theorem applyTransform_literal this (m : gmap string JsVal) (s : string)
    (from to : JsVal) :
  m !! "object" = None →
  m !! "from" = Some from →
  m !! "to" = Some to →
  truthy (js_get (JObj m) "regex") = false →
  applyTransform this (JStr s) (JObj m)
  = mret (JStr (Array_join (String_split s from) to)) ∧
  ∀ f t : string, from = JStr f → to = JStr t → f ≠ "" →
    ∀ r : string, ReplaceAll f t s r ↔ r = Array_join (String_split s from) to.
Proof.
  intros Hobject Hfrom Hto Hregex. split.
  - unfold applyTransform, js_in.
    rewrite Hobject, Hfrom, Hto.
    change (bool_decide (is_Some (@None JsVal))) with false.
    change (bool_decide (is_Some (Some from))) with true.
    change (bool_decide (is_Some (Some to))) with true.
    rewrite !Eff_bind_ret_l.
    unfold applyStringTransform, member. cbn [is_nullish].
    rewrite Eff_bind_ret_l, Hregex.
    unfold js_get, own_props. by rewrite Hfrom, Hto.
  - intros f t -> -> Hf r.
    unfold String_split, Array_join. cbn [ToString].
    rewrite bool_decide_eq_false_2 by done.
    split.
    + by apply ReplaceAll_unique.
    + intros ->. by apply ReplaceAll_split_join.
Qed.

Lemma foldl_assign_lookup (f : string → JsVal) (keys : list string)
    (acc : gmap string JsVal) (k : string) :
  foldl (λ o key, js_assign o key (f key)) acc keys !! k
  = if decide (k ∈ keys ∧ k ≠ "__proto__") then Some (f k) else acc !! k.
Proof.
  revert acc. induction keys as [|x keys IH]; intros acc; cbn [foldl].
  - case_decide as Hin; [|done]. destruct Hin as [Hin _].
    by apply elem_of_nil in Hin.
  - rewrite IH. unfold js_assign.
    destruct (decide (k ∈ keys ∧ k ≠ "__proto__")) as [[Hin Hk]|Hnin].
    + rewrite decide_True; [done|]. split; [|done]. apply elem_of_cons. by right.
    + case_bool_decide as Hx.
      * rewrite decide_False; [done|]. intros [Hin Hk].
        apply elem_of_cons in Hin as [->|Hin]; [done|]. by apply Hnin.
      * destruct (decide (k = x)) as [->|Hne].
        -- rewrite lookup_insert_eq, decide_True; [done|].
           split; [|done]. apply elem_of_cons. by left.
        -- rewrite lookup_insert_ne by done.
           rewrite decide_False; [done|]. intros [Hin Hk].
           apply elem_of_cons in Hin as [->|Hin]; [done|]. by apply Hnin.
Qed.

Lemma Eff_foldl_pure {A B} (callback : A → B → Eff A) (g : A → B → A)
    (l : list B) (a : A) :
  (∀ a' x, x ∈ l → callback a' x = mret (g a' x)) →
  Eff_foldl callback l a = mret (foldl g a l).
Proof.
  revert a. induction l as [|x l IH]; intros a Hpure; [done|].
  cbn [Eff_foldl foldl].
  rewrite Hpure, Eff_bind_ret_l by (apply elem_of_cons; by left).
  apply IH. intros a' y Hy. apply Hpure, elem_of_cons. by right.
Qed.

Lemma Eff_foldl_throw {A B} (callback : A → B → Eff A) (l : list B) (a : A) (k : B) :
  k ∈ l →
  (∀ a', ∃ err, callback a' k = throw err) →
  (∀ a' x, effects (callback a' x) = []) →
  ∃ err, Eff_foldl callback l a = throw err.
Proof.
  intros Hk Hthrow Hquiet. revert a.
  induction l as [|x l IH]; intros a; [by apply elem_of_nil in Hk|].
  cbn [Eff_foldl].
  destruct (callback a x) as [efs [a'|err]] eqn:Hcall.
  - pose proof (Hquiet a x) as Hefs. rewrite Hcall in Hefs. simpl in Hefs. subst efs.
    change (mkEff [] (Normal a')) with (mret (M:=Eff) a').
    rewrite Eff_bind_ret_l.
    apply elem_of_cons in Hk as [->|Hk]; [|by apply IH].
    destruct (Hthrow a) as [err Herr]. by rewrite Herr in Hcall.
  - pose proof (Hquiet a x) as Hefs. rewrite Hcall in Hefs. simpl in Hefs. subst efs.
    by exists err.
Qed.

Lemma elem_of_keys {A} (m : gmap string A) (k : string) :
  k ∈ (map_to_list m).*1 ↔ is_Some (m !! k).
Proof.
  rewrite list_elem_of_fmap. split.
  - intros [[k' x] [-> Hx]]. apply elem_of_map_to_list in Hx. by exists x.
  - intros [x Hx]. exists (k, x). split; [done|].
    by apply elem_of_map_to_list.
Qed.

Lemma member_object (transform : JsVal) (m : gmap string JsVal) :
  js_get transform "object" = JObj m →
  member transform "object" = mret (JObj m).
Proof.
  intros Hobject. unfold member. rewrite <- Hobject. by destruct transform.
Qed.

(** When every template resolves, the result holds the resolved templates
    under their keys, but for a key named [__proto__]. *)
Lemma applyObjectTransform_resolved this value transform (m : gmap string JsVal) :
  js_get transform "object" = JObj m →
  (∀ key template, m !! key = Some template →
     ∃ resolved,
       parseVariables (getTemplateVariables this value) template "" true
       = Normal resolved) →
  applyObjectTransform this value transform
  = mret (JObj (omap (λ template,
                        normal (parseVariables (getTemplateVariables this value)
                                  template "" true))
                     (delete "__proto__" m))).
Proof.
  intros Hobject Hresolve.
  unfold applyObjectTransform.
  rewrite (member_object _ _ Hobject), Eff_bind_ret_l.
  unfold Object_keys. cbn [is_nullish own_props]. rewrite Eff_bind_ret_l.
  set (variables := getTemplateVariables this value).
  rewrite (Eff_foldl_pure _
    (λ o key, js_assign o key
       (default JUndefined
          (normal (parseVariables variables (js_get (JObj m) key) "" true))))).
  - rewrite Eff_bind_ret_l. do 2 f_equal. apply map_eq. intros k.
    rewrite (foldl_assign_lookup
      (λ key, default JUndefined
         (normal (parseVariables variables (js_get (JObj m) key) "" true)))).
    rewrite lookup_omap, lookup_empty.
    destruct (decide (k ∈ (map_to_list m).*1 ∧ k ≠ "__proto__")) as [[Hin Hk]|Hnin].
    + apply elem_of_keys in Hin as [x Hx].
      rewrite lookup_delete_ne, Hx by done. cbn [mbind option_bind].
      unfold js_get, own_props. rewrite Hx. cbn [default from_option id].
      destruct (Hresolve k x Hx) as [r Hr]. fold variables in Hr.
      by rewrite Hr.
    + destruct (decide (k = "__proto__")) as [->|Hk].
      { by rewrite lookup_delete_eq. }
      rewrite lookup_delete_ne by done.
      destruct (m !! k) as [x|] eqn:Hx; [|done].
      destruct Hnin. split; [|done]. apply elem_of_keys. by exists x.
  - intros o key Hkey. apply elem_of_keys in Hkey as [x Hx].
    assert (js_get (JObj m) key = x) as ->.
    { unfold js_get, own_props. by rewrite Hx. }
    destruct (Hresolve key x Hx) as [r Hr]. fold variables in Hr.
    rewrite Hr. change (lift (Normal r)) with (mret (M:=Eff) r).
    by rewrite Eff_bind_ret_l.
Qed.

(** When a template does not resolve, the exception leaves
    [applyObjectTransform]. *)
Lemma applyObjectTransform_unresolved this value transform (m : gmap string JsVal) :
  js_get transform "object" = JObj m →
  (∃ key template err,
     m !! key = Some template ∧
     parseVariables (getTemplateVariables this value) template "" true = Throw err) →
  ∃ err, applyObjectTransform this value transform = throw err.
Proof.
  intros Hobject (key & template & err & Hkey & Hthrow).
  unfold applyObjectTransform.
  rewrite (member_object _ _ Hobject), Eff_bind_ret_l.
  unfold Object_keys. cbn [is_nullish own_props]. rewrite Eff_bind_ret_l.
  edestruct (Eff_foldl_throw
    (λ (newObject : gmap string JsVal) k,
       resolved ← lift (parseVariables (getTemplateVariables this value)
                          (js_get (JObj m) k) "" true);
       mret (js_assign newObject k resolved))
    (map_to_list m).*1 ∅ key) as [err' Herr].
  - apply elem_of_keys. by exists template.
  - intros o. exists err.
    assert (js_get (JObj m) key = template) as ->.
    { unfold js_get, own_props. by rewrite Hkey. }
    by rewrite Hthrow.
  - intros o k. unfold lift, mbind, Eff_bind.
    destruct (parseVariables (getTemplateVariables this value)
                (js_get (JObj m) k) "" true); reflexivity.
  - exists err'. by rewrite Herr.
Qed.

(** C10. For a transform whose [object] is a map of templates without a key
    named [__proto__], all of which [parseVariables] resolves,
    [applyObjectTransform] returns a new object with exactly the keys of
    that map, each holding its template resolved against the variables
    [{id: bunsenId, value}]; a property of the input value is in the
    result only if it is a key of the map. *)
Theorem applyObjectTransform_keys this value transform (m : gmap string JsVal) :
  js_get transform "object" = JObj m →
  m !! "__proto__" = None →
  let variables := JObj {[ "id" := bunsenId this; "value" := value ]} in
  (∀ key template, m !! key = Some template →
     ∃ resolved, parseVariables variables template "" true = Normal resolved) →
  let newObject :=
    omap (λ template, normal (parseVariables variables template "" true)) m in
  applyObjectTransform this value transform = mret (JObj newObject) ∧
  dom newObject = dom m ∧
  (∀ key template, m !! key = Some template →
     ∃ resolved, newObject !! key = Some resolved ∧
                 parseVariables variables template "" true = Normal resolved) ∧
  (∀ key, is_Some (own_props value !! key) → m !! key = None →
          newObject !! key = None).
Proof.
  intros Hobject Hproto variables Hresolve newObject.
  assert (∀ key template, m !! key = Some template →
            ∃ resolved, newObject !! key = Some resolved ∧
                        parseVariables variables template "" true = Normal resolved)
    as Hentries.
  { intros key template Hkey. destruct (Hresolve key template Hkey) as [r Hr].
    exists r. split; [|done].
    unfold newObject. rewrite lookup_omap, Hkey. cbn [mbind option_bind].
    by rewrite Hr. }
  repeat split.
  - rewrite (applyObjectTransform_resolved this value transform m Hobject Hresolve).
    by rewrite delete_id.
  - apply set_eq. intros key. rewrite !elem_of_dom. split.
    + intros [r Hr]. unfold newObject in Hr. rewrite lookup_omap in Hr.
      destruct (m !! key) as [template|]; [by eexists|done].
    + intros [template Hkey].
      destruct (Hentries key template Hkey) as (r & Hr & _). by exists r.
  - exact Hentries.
  - intros key _ Hkey. unfold newObject. by rewrite lookup_omap, Hkey.
Qed.

End Transforms.

(** ** The change pipeline and the error-display state *)

Section Silent.
Context `{Externals}.

Lemma silent_ret {A} (a : A) : silent (mret a).
Proof. done. Qed.

Lemma silent_throw {A} (e : JsError) : silent (@throw A e).
Proof. done. Qed.

Lemma silent_lift {A} (c : Completion A) : silent (lift c).
Proof. done. Qed.

Lemma silent_warn (msg : string) (arg : JsVal) : silent (perform (LogWarn msg arg)).
Proof. done. Qed.

Lemma silent_bind {A B} (m : Eff A) (f : A → Eff B) :
  silent m → (∀ a, silent (f a)) → silent (m ≫= f).
Proof.
  unfold silent, mbind, Eff_bind. intros Hm Hf.
  destruct (outcome m) as [a|e]; simpl; [|done].
  by rewrite notifications_app, Hm, Hf.
Qed.

Lemma silent_member (v : JsVal) (k : string) : silent (member v k).
Proof. unfold member. by destruct (is_nullish v). Qed.

Lemma silent_js_in (k : string) (v : JsVal) : silent (js_in k v).
Proof. by destruct v. Qed.

Lemma silent_Object_keys (v : JsVal) : silent (Object_keys v).
Proof. unfold Object_keys. by destruct (is_nullish v). Qed.

Ltac silence :=
  repeat first
    [ apply silent_ret | apply silent_throw | apply silent_lift
    | apply silent_warn | apply silent_member | apply silent_js_in
    | apply silent_Object_keys | assumption
    | apply silent_bind; [|intros ?]
    | match goal with
      | |- silent (if ?b then _ else _) => destruct b
      | |- silent (match ?v with _ => _ end) => destruct v
      end ].

Lemma silent_Eff_foldl {A B} (callback : A → B → Eff A) (l : list B) (a : A) :
  (∀ a' x, silent (callback a' x)) → silent (Eff_foldl callback l a).
Proof.
  intros Hcallback. revert a. induction l as [|x l IH]; intros a; simpl.
  - apply silent_ret.
  - by apply silent_bind.
Qed.

Lemma silent_applyObjectTransform this value transform :
  silent (applyObjectTransform this value transform).
Proof.
  unfold applyObjectTransform.
  apply silent_bind; [apply silent_member|intros object].
  apply silent_bind; [apply silent_Object_keys|intros keys].
  apply silent_bind; [|intros ?; apply silent_ret].
  apply silent_Eff_foldl. intros newObject key. silence.
Qed.

Lemma silent_applyStringTransform value transform :
  silent (applyStringTransform value transform).
Proof. unfold applyStringTransform. silence. Qed.

Lemma silent_applyTransform this value transform :
  silent (applyTransform this value transform).
Proof.
  pose proof (silent_applyObjectTransform this value transform).
  pose proof (silent_applyStringTransform value transform).
  unfold applyTransform. silence.
Qed.

Lemma silent_Array_reduce this (l : list JsVal) value :
  silent (Array_reduce (applyTransform this) l value).
Proof.
  revert value. induction l as [|t l IH]; intros value; simpl.
  - apply silent_ret.
  - apply silent_bind; [apply silent_applyTransform|done].
Qed.

Lemma silent_applyTransforms this value transforms :
  silent (applyTransforms this value transforms).
Proof.
  unfold applyTransforms.
  destruct (negb (truthy transforms) || bool_decide _); [apply silent_ret|].
  destruct transforms; try apply silent_throw. apply silent_Array_reduce.
Qed.

Lemma silent_parseValue (e : JsVal) : silent (parseValue e).
Proof. unfold parseValue. silence. Qed.

End Silent.

Section Events.
Context `{Externals}.
Implicit Types (this : Component) (a : Attrs) (evs : list Event).

(** C9. For an event that is neither [null] nor [undefined], [parseValue]
    returns [e.value] when it is defined, else the value at the path
    [target.value] of [e] when that is defined, else [e] itself. *)
Theorem parseValue_first_defined (e : JsVal) :
  is_nullish e = false →
  (js_get e "value" ≠ JUndefined →
     parseValue e = mret (js_get e "value")) ∧
  (js_get e "value" = JUndefined → lodash_get e "target.value" ≠ JUndefined →
     parseValue e = mret (lodash_get e "target.value")) ∧
  (js_get e "value" = JUndefined → lodash_get e "target.value" = JUndefined →
     parseValue e = mret e).
Proof.
  intros He. unfold parseValue, member. rewrite He, Eff_bind_ret_l.
  unfold lodash_find. cbn [List.find].
  repeat split.
  - intros Hv. by destruct (js_get e "value").
  - intros -> Ht. cbn [isUndefined negb]. by destruct (lodash_get e "target.value").
  - intros -> ->. cbn [isUndefined negb]. by destruct e.
Qed.

(** The path [target.value] is [e.target.value], read safely, unless the
    event has a property that is itself named [target.value]. *)
Lemma lodash_get_target_value (e : JsVal) :
  is_nullish e = false →
  own_props e !! "target.value" = None →
  lodash_get e "target.value"
  = if is_nullish (js_get e "target") then JUndefined
    else js_get (js_get e "target") "value".
Proof.
  intros He Hkey. unfold lodash_get. rewrite He, Hkey.
  change (bool_decide (is_Some (@None JsVal))) with false.
  change (split_from "." 0 "target.value") with ["target"; "value"].
  cbn [baseGet]. by rewrite He.
Qed.

Lemma onChange_bind this (e : JsVal) :
  onChange this e
  = (newValue ← parseValue e;
     applyTransforms this newValue (ember_get (cellConfig this) "transforms.write"))
    ≫= λ transformed,
         if negb (isEqual transformed (value this))
         then perform (CallOnChange (bunsenId this) transformed)
         else mret ().
Proof. unfold onChange. by rewrite Eff_bind_assoc. Qed.

(** C1. On a change event the parent's [onChange] is called with the
    field id and the write-transformed parsed value exactly when that value
    differs from the committed one; it is not called when it is equal or
    when the pipeline throws, and never more than once. *)
Theorem onChange_notifies this (e : JsVal) :
  let written : Eff JsVal :=
    newValue ← parseValue e;
    applyTransforms this newValue (ember_get (cellConfig this) "transforms.write") in
  notifications (effects (onChange this e))
  = match outcome written with
    | Normal transformed =>
        if bool_decide (transformed = value this) then []
        else [(bunsenId this, transformed)]
    | Throw _ => []
    end ∧
  (length (notifications (effects (onChange this e))) ≤ 1)%nat.
Proof.
  intros written.
  assert (silent written) as Hsilent.
  { apply silent_bind; [apply silent_parseValue|].
    intros ?. apply silent_applyTransforms. }
  assert (notifications (effects (onChange this e))
          = match outcome written with
            | Normal transformed =>
                if bool_decide (transformed = value this) then []
                else [(bunsenId this, transformed)]
            | Throw _ => []
            end) as Heq.
  { rewrite onChange_bind. fold written.
    unfold mbind at 1. unfold Eff_bind.
    destruct (outcome written) as [w|err]; simpl; [|done].
    rewrite notifications_app, Hsilent. unfold isEqual.
    by destruct (bool_decide (w = value this)). }
  split; [done|]. rewrite Heq.
  destruct (outcome written) as [w|err]; [|simpl; lia].
  destruct (bool_decide (w = value this)); simpl; lia.
Qed.

(** A committed value ["abc"] with a write transform from ["abc"] to
    ["abc"]: typing ["abc"] notifies nobody. *)
Example onChange_round_trip a :
  a_value a = JStr "abc" →
  a_cellConfig a = object_of [("transforms", object_of [
    ("write", JArr [object_of [("from", JStr "abc"); ("to", JStr "abc")]])])] →
  effects (onChange (create a) (object_of [("target", object_of [("value", JStr "abc")])]))
  = [].
Proof.
  intros Hvalue Hconfig.
  assert (value (create a) = JStr "abc" ∧ cellConfig (create a) = a_cellConfig a)
    as [Hv Hc].
  { unfold create, init, try_catch. destruct a; simpl in *.
    by destruct a_bunsenId0. }
  unfold onChange. rewrite Hv, Hc, Hconfig. by vm_compute.
Qed.

(** *** The error-display flag *)

Lemma run_snoc this evs (ev : Event) :
  run this (evs ++ [ev])
  = ((dispatch (run this evs).1 ev).1,
     ((run this evs).2 ++ (dispatch (run this evs).1 ev).2)%list).
Proof. unfold run. by rewrite foldl_snoc. Qed.

Lemma create_fields a :
  showErrorMessage (create a) = JBool false ∧
  errorMessage (create a) = a_errorMessage a ∧
  showAllErrors (create a) = a_showAllErrors a.
Proof.
  unfold create, init, try_catch. destruct (a_bunsenId a) eqn:E; simpl; rewrite E; done.
Qed.

Lemma dispatch_fields this (ev : Event) :
  errorMessage (dispatch this ev).1 = errorMessage this ∧
  showAllErrors (dispatch this ev).1 = showAllErrors this.
Proof.
  destruct ev; simpl; try done; unfold onFocusOut, onFocusIn;
    by destruct (truthy (showErrorMessage this)).
Qed.

Lemma dispatch_flag this (ev : Event) :
  (showErrorMessage this = JBool false ∨ showErrorMessage this = JBool true) →
  showErrorMessage (dispatch this ev).1 = JBool false ∨
  showErrorMessage (dispatch this ev).1 = JBool true.
Proof.
  intros Hflag. destruct ev; simpl; try done; unfold onFocusOut, onFocusIn;
    destruct Hflag as [Hflag|Hflag]; rewrite Hflag; simpl; auto.
Qed.

Lemma run_fields this evs :
  errorMessage (run this evs).1 = errorMessage this ∧
  showAllErrors (run this evs).1 = showAllErrors this.
Proof.
  induction evs as [|ev evs IH] using rev_ind; [done|].
  rewrite run_snoc. cbn [fst].
  destruct (dispatch_fields (run this evs).1 ev) as [-> ->]. exact IH.
Qed.

Lemma run_flag this evs :
  (showErrorMessage this = JBool false ∨ showErrorMessage this = JBool true) →
  showErrorMessage (run this evs).1 = JBool false ∨
  showErrorMessage (run this evs).1 = JBool true.
Proof.
  intros Hflag. induction evs as [|ev evs IH] using rev_ind; [done|].
  rewrite run_snoc. cbn [fst]. by apply dispatch_flag.
Qed.

(** C7. [renderErrorMessage] is not [null] only when [showAllErrors] is
    truthy or the flag is [true]; with neither it is [null] whatever the
    error message; with [showAllErrors] truthy it is the error message
    after every history of events. *)
Theorem renderErrorMessage_visible a evs :
  let this := (run (create a) evs).1 in
  (renderErrorMessage_of this ≠ JNull →
     truthy (showAllErrors this) = true ∨ showErrorMessage this = JBool true) ∧
  (truthy (showAllErrors this) = false → showErrorMessage this = JBool false →
     renderErrorMessage_of this = JNull) ∧
  (truthy (a_showAllErrors a) = true →
     renderErrorMessage_of this = a_errorMessage a).
Proof.
  intros this.
  destruct (create_fields a) as (Hflag0 & Hmsg0 & Hall0).
  destruct (run_fields (create a) evs) as [Hmsg Hall].
  destruct (run_flag (create a) evs) as [Hflag|Hflag]; [by left|..];
    fold this in Hmsg, Hall, Hflag;
    unfold renderErrorMessage_of, renderErrorMessage;
    rewrite Hflag, Hmsg, Hall, Hmsg0, Hall0;
    destruct (truthy (a_showAllErrors a)); simpl; repeat split; auto; try done.
Qed.

(** C8. The flag starts [false]; focus-out makes it [true] and focus-in
    makes it [false], each leaving alone a component already in that
    state; a change or a render leaves it as it is; so after every history
    it is [false] or [true]. *)
Theorem showErrorMessage_state_machine a evs :
  let this := (run (create a) evs).1 in
  showErrorMessage (create a) = JBool false ∧
  (showErrorMessage this = JBool false ∨ showErrorMessage this = JBool true) ∧
  showErrorMessage (dispatch this FocusOut).1 = JBool true ∧
  showErrorMessage (dispatch this FocusIn).1 = JBool false ∧
  (∀ e, showErrorMessage (dispatch this (Change e)).1 = showErrorMessage this) ∧
  showErrorMessage (dispatch this DidRender).1 = showErrorMessage this ∧
  (showErrorMessage this = JBool true → (dispatch this FocusOut).1 = this) ∧
  (showErrorMessage this = JBool false → (dispatch this FocusIn).1 = this).
Proof.
  intros this.
  destruct (create_fields a) as (Hflag0 & _ & _).
  destruct (run_flag (create a) evs) as [Hflag|Hflag]; [by left|..];
    fold this in Hflag; simpl; unfold onFocusOut, onFocusIn;
    rewrite Hflag; simpl; repeat split; auto; try done.
Qed.

End Events.

(** ** The theorems at sample values *)

Section Samples.
#[local] Existing Instance literal_externals.

Example String_split_samples :
  String_split "a,b,,c," (JStr ",") = ["a"; "b"; ""; "c"; ""] ∧
  String_split "aaa" (JStr "aa") = [""; "a"] ∧
  String_split "abc" (JStr "") = ["a"; "b"; "c"] ∧
  String_split "" (JStr "") = [] ∧
  String_split "" (JStr ",") = [""] ∧
  String_split "abc" JUndefined = ["abc"].
Proof. by vm_compute. Qed.

Example create_sample :
  hook (create sample_attrs) = JStr "form-bar" ∧
  required (create sample_attrs) = JBool false ∧
  showErrorMessage (create sample_attrs) = JBool false.
Proof. by vm_compute. Qed.

(** With the literal engine: only the first match without the global flag,
    every match with it. *)
Example applyStringTransform_samples :
  applyStringTransform (JStr "bbb") first_match_transform = mret (JStr "abb") ∧
  applyStringTransform (JStr "bbb") every_match_transform = mret (JStr "aaa") ∧
  outcome (applyStringTransform (JNum 5) every_match_transform) = Throw TypeError.
Proof. by vm_compute. Qed.

Example transformedValue_sample :
  transformedValue (create sample_attrs) (JStr "bbb") sample_config
  = mret (JStr "abb").
Proof. by vm_compute. Qed.

Example onChange_samples :
  effects (onChange (create sample_attrs)
             (object_of [("target", object_of [("value", JStr "aXa")])]))
  = [CallOnChange (JStr "foo.bar") (JStr "bXb")] ∧
  effects (onChange (create sample_attrs)
             (object_of [("target", object_of [("value", JStr "aba")])]))
  = [] ∧
  onChange (create sample_attrs) JNull = throw TypeError.
Proof. by vm_compute. Qed.

Example run_sample :
  showErrorMessage
    (run (create sample_attrs) [FocusOut; Change (JStr "zz"); DidRender]).1
  = JBool true ∧
  notifications (run (create sample_attrs) [FocusOut; Change (JStr "zz"); FocusIn]).2
  = [(JStr "foo.bar", JStr "zz")].
Proof. by vm_compute. Qed.

Lemma transformedValue_non_string_witness :
  transformedValue (create sample_attrs) (JNum 42) sample_config = mret (JNum 42).
Proof. apply transformedValue_non_string. reflexivity. Defined.

Lemma applyStringTransform_regex_flags_witness :
  applyStringTransform (JStr "bbb") first_match_transform
  = regex_replace "" "bbb" (JStr "b") (JStr "a") ∧
  applyStringTransform (JStr "bbb") every_match_transform
  = regex_replace "g" "bbb" (JStr "b") (JStr "a").
Proof.
  split.
  - apply (applyStringTransform_regex_flags "bbb" first_match_transform);
      vm_compute; reflexivity.
  - apply (applyStringTransform_regex_flags "bbb" every_match_transform);
      vm_compute; [reflexivity|discriminate].
Defined.

Lemma applyTransform_unknown_witness :
  applyTransform (create sample_attrs) (JStr "v") (object_of [("from", JStr "a")])
  = mkEff [LogWarn "Unknown transform:" (object_of [("from", JStr "a")])]
          (Normal (JStr "v")).
Proof.
  apply applyTransform_unknown; [|right]; vm_compute; reflexivity.
Defined.

(** A number has no [object], [from] or [to] key, and is no unknown
    transform: the [in] test throws on it, as on [null]. *)
Lemma applyTransform_unknown_counterexample :
  own_props (JNum 5) !! "object" = None ∧
  own_props (JNum 5) !! "from" = None ∧
  applyTransform (create sample_attrs) (JStr "v") (JNum 5) = throw TypeError ∧
  applyTransform (create sample_attrs) (JStr "v") JNull = throw TypeError.
Proof. repeat split. Qed.

Lemma applyTransform_literal_witness :
  applyTransform (create sample_attrs) (JStr "banana") (JObj literal_transform)
  = mret (JStr "booa") ∧
  ReplaceAll "an" "o" "banana" "booa".
Proof.
  destruct (applyTransform_literal (create sample_attrs) literal_transform
              "banana" (JStr "an") (JStr "o")) as [Happly Hall];
    try (vm_compute; reflexivity).
  split.
  - exact Happly.
  - apply (Hall "an" "o"); [reflexivity|reflexivity|discriminate|].
    vm_compute; reflexivity.
Defined.

(** A map of templates with a key named [__proto__] loses that key, and a
    template that does not resolve makes the transform throw. *)
Lemma applyObjectTransform_keys_counterexample :
  (∃ newObject : gmap string JsVal,
     applyObjectTransform (create sample_attrs) (JStr "v")
       (object_of [("object", object_of [("__proto__", JStr "x"); ("a", JStr "y")])])
     = mret (JObj newObject) ∧
     dom newObject ≠ dom (list_to_map [("__proto__", JStr "x"); ("a", JStr "y")]
                            : gmap string JsVal)) ∧
  applyObjectTransform (create sample_attrs) (JStr "v")
    (object_of [("object", object_of [("n", JNum 5)])])
  = throw TypeError.
Proof.
  split; [|by vm_compute].
  exists {[ "a" := JStr "y" ]}. split; [by vm_compute|].
  intros Hdom.
  assert ("__proto__" ∈ dom ({[ "a" := JStr "y" ]} : gmap string JsVal)) as Hin.
  { rewrite Hdom. apply elem_of_dom. by vm_compute; eexists. }
  apply elem_of_dom in Hin as [x Hx]. by vm_compute in Hx.
Qed.

Lemma applyObjectTransform_keys_witness :
  applyObjectTransform (create sample_attrs) (JStr "v") label_transform
  = mret (object_of [("label", JStr "foo.bar: v")]).
Proof.
  destruct (applyObjectTransform_keys (create sample_attrs) (JStr "v")
              label_transform {[ "label" := JStr "${id}: ${value}" ]})
    as (Happly & _ & _ & _).
  - vm_compute; reflexivity.
  - vm_compute; reflexivity.
  - intros key template [<- <-]%lookup_singleton_Some.
    eexists. vm_compute. reflexivity.
  - rewrite Happly. vm_compute. reflexivity.
Defined.

Lemma parseValue_first_defined_witness :
  parseValue (object_of [("value", JStr "v"); ("target", object_of [("value", JStr "t")])])
  = mret (JStr "v") ∧
  parseValue (object_of [("target", object_of [("value", JStr "t")])])
  = mret (JStr "t") ∧
  parseValue (JStr "abc") = mret (JStr "abc").
Proof.
  split; [|split].
  - apply (parseValue_first_defined
      (object_of [("value", JStr "v"); ("target", object_of [("value", JStr "t")])]));
      [reflexivity|vm_compute; discriminate].
  - apply (parseValue_first_defined
      (object_of [("target", object_of [("value", JStr "t")])]));
      [reflexivity|vm_compute; reflexivity|vm_compute; discriminate].
  - apply (parseValue_first_defined (JStr "abc"));
      [reflexivity|vm_compute; reflexivity|vm_compute; reflexivity].
Defined.

Lemma renderErrorMessage_visible_witness :
  showErrorMessage (run (create sample_attrs) [FocusOut]).1 = JBool true ∧
  renderErrorMessage_of (run (create sample_attrs) [FocusOut; FocusIn]).1 = JNull ∧
  renderErrorMessage_of (run (create sample_attrs_all_errors) [FocusOut; FocusIn]).1
  = JStr "bad".
Proof.
  split; [|split].
  - destruct (renderErrorMessage_visible sample_attrs [FocusOut]) as (Honly & _ & _).
    destruct Honly as [Hall|Hshown];
      [vm_compute; discriminate|vm_compute in Hall; discriminate|exact Hshown].
  - destruct (renderErrorMessage_visible sample_attrs [FocusOut; FocusIn])
      as (_ & Hhidden & _).
    apply Hhidden; vm_compute; reflexivity.
  - destruct (renderErrorMessage_visible sample_attrs_all_errors [FocusOut; FocusIn])
      as (_ & _ & Hall).
    apply Hall. vm_compute; reflexivity.
Defined.

Lemma showErrorMessage_state_machine_witness :
  (dispatch (run (create sample_attrs) [FocusOut]).1 FocusOut).1
  = (run (create sample_attrs) [FocusOut]).1 ∧
  (dispatch (run (create sample_attrs) []).1 FocusIn).1
  = (run (create sample_attrs) []).1.
Proof.
  split.
  - destruct (showErrorMessage_state_machine sample_attrs [FocusOut])
      as (_ & _ & _ & _ & _ & _ & Hshown & _).
    apply Hshown. vm_compute; reflexivity.
  - destruct (showErrorMessage_state_machine sample_attrs [])
      as (_ & _ & _ & _ & _ & _ & _ & Hhidden).
    apply Hhidden. vm_compute; reflexivity.
Defined.

End Samples.


(** ** Further properties of the transform engine *)

Section MoreTransforms.
Context `{Externals}.
Implicit Types (this : Component) (value transform : JsVal).

Lemma outcome_bind_throw {A B} (m : Eff A) (f : A → Eff B) :
  (∀ a, ∃ err, outcome (f a) = Throw err) →
  ∃ err, outcome (m ≫= f) = Throw err.
Proof.
  intros Hf. unfold mbind, Eff_bind.
  destruct (outcome m) as [a|err]; simpl; [apply Hf|by exists err].
Qed.

Lemma effects_bind {A B} (m : Eff A) (f : A → Eff B) :
  effects (m ≫= f)
  = (effects m ++ match outcome m with
                  | Normal a => effects (f a)
                  | Throw _ => []
                  end)%list.
Proof.
  unfold mbind, Eff_bind. destruct (outcome m); simpl; [done|].
  by rewrite app_nil_r.
Qed.

Lemma Array_reduce_app (f : JsVal → JsVal → Eff JsVal) (l1 l2 : list JsVal) value :
  Array_reduce f (l1 ++ l2) value
  = (x ← Array_reduce f l1 value; Array_reduce f l2 x).
Proof.
  revert value. induction l1 as [|t l1 IH]; intros value.
  - rewrite app_nil_l. cbn [Array_reduce]. by rewrite Eff_bind_ret_l.
  - rewrite <- app_comm_cons. cbn [Array_reduce].
    rewrite Eff_bind_assoc. by apply Eff_bind_ext.
Qed.

Lemma applyTransforms_array this value (l : list JsVal) :
  applyTransforms this value (JArr l) = Array_reduce (applyTransform this) l value.
Proof. by destruct l. Qed.

(** X1. Applying the concatenation of two arrays of transforms is applying
    the first array and then the second to its result; an exception in the
    first array stops the second. *)
Theorem applyTransforms_app this value (ts1 ts2 : list JsVal) :
  applyTransforms this value (JArr (ts1 ++ ts2))
  = (x ← applyTransforms this value (JArr ts1);
     applyTransforms this x (JArr ts2)).
Proof.
  rewrite !applyTransforms_array, Array_reduce_app.
  apply Eff_bind_ext. intros x. by rewrite applyTransforms_array.
Qed.

Lemma effects_member (v : JsVal) (k : string) : effects (member v k) = [].
Proof. unfold member. by destruct (is_nullish v). Qed.

Lemma effects_js_in (k : string) (v : JsVal) : effects (js_in k v) = [].
Proof. by destruct v. Qed.

Lemma member_nullish (v : JsVal) (k : string) :
  is_nullish v = true → member v k = throw TypeError.
Proof. intros Hv. unfold member. by rewrite Hv. Qed.

Lemma member_not_nullish (v : JsVal) (k : string) :
  is_nullish v = false → member v k = mret (js_get v k).
Proof. intros Hv. unfold member. by rewrite Hv. Qed.

Lemma Object_keys_not_nullish (v : JsVal) :
  is_nullish v = false → Object_keys v = mret (map_to_list (own_props v)).*1.
Proof. intros Hv. unfold Object_keys. by rewrite Hv. Qed.

Lemma effects_Eff_foldl {A B} (callback : A → B → Eff A) (l : list B) (a : A) :
  (∀ a' x, effects (callback a' x) = []) → effects (Eff_foldl callback l a) = [].
Proof.
  intros Hcallback. revert a. induction l as [|x l IH]; intros a; [done|].
  cbn [Eff_foldl]. rewrite effects_bind, Hcallback.
  destruct (outcome (callback a x)); [apply IH|done].
Qed.

Lemma effects_applyObjectTransform this value transform :
  effects (applyObjectTransform this value transform) = [].
Proof.
  unfold applyObjectTransform.
  destruct (is_nullish transform) eqn:Ht.
  { by rewrite member_nullish. }
  rewrite member_not_nullish, Eff_bind_ret_l by done.
  destruct (is_nullish (js_get transform "object")) eqn:Hobject.
  { unfold Object_keys. by rewrite Hobject. }
  rewrite Object_keys_not_nullish, Eff_bind_ret_l by done.
  rewrite effects_bind, effects_Eff_foldl.
  - by destruct (outcome (Eff_foldl _ _ _)).
  - intros newObject key. unfold lift, mbind, Eff_bind.
    destruct (parseVariables (getTemplateVariables this value)
                (js_get (js_get transform "object") key) "" true); reflexivity.
Qed.

Lemma effects_applyStringTransform value transform :
  effects (applyStringTransform value transform) = [].
Proof.
  unfold applyStringTransform.
  destruct (is_nullish transform) eqn:Ht.
  { by rewrite member_nullish. }
  rewrite member_not_nullish, Eff_bind_ret_l by done.
  destruct (truthy (js_get transform "regex")); [|by destruct value].
  unfold lift. destruct (RegExp_new _ _) as [p|err]; [|done].
  by destruct value.
Qed.

Lemma js_in_object (k : string) (v : JsVal) :
  is_object v = true → ∃ b : bool, js_in k v = mret b.
Proof. destruct v; try done; intros _; eexists; reflexivity. Qed.

Lemma effects_applyTransform this value transform :
  effects (applyTransform this value transform) = [] ∨
  effects (applyTransform this value transform)
  = [LogWarn "Unknown transform:" transform].
Proof.
  destruct (is_object transform) eqn:Hobj; [|left; by destruct transform].
  unfold applyTransform.
  destruct (js_in_object "object" _ Hobj) as [b1 ->].
  destruct (js_in_object "from" _ Hobj) as [b2 ->].
  destruct (js_in_object "to" _ Hobj) as [b3 ->].
  destruct b1, b2, b3; rewrite !Eff_bind_ret_l;
    first [ left; apply effects_applyObjectTransform
          | left; apply effects_applyStringTransform
          | by right ].
Qed.

(** X2. The only effects of [applyTransforms] on an array are warnings
    about entries of that array, at most one for each entry: the transform
    engine never notifies the parent and never logs anything else. *)
Theorem applyTransforms_effects this value (ts : list JsVal) :
  Forall (λ ef, ∃ t, t ∈ ts ∧ ef = LogWarn "Unknown transform:" t)
         (effects (applyTransforms this value (JArr ts))) ∧
  (length (effects (applyTransforms this value (JArr ts))) ≤ length ts)%nat.
Proof.
  rewrite applyTransforms_array. revert value.
  induction ts as [|t ts IH]; intros value; simpl.
  - split; [constructor|done].
  - rewrite effects_bind, length_app.
    assert (Forall (λ ef, ∃ t', t' ∈ t :: ts ∧ ef = LogWarn "Unknown transform:" t')
                   (effects (applyTransform this value t)) ∧
            (length (effects (applyTransform this value t)) ≤ 1)%nat) as [Hhead Hlen].
    { destruct (effects_applyTransform this value t) as [-> | ->].
      - split; [constructor|simpl; lia].
      - split; [|done]. repeat constructor. exists t. split; [left|done]. }
    destruct (outcome (applyTransform this value t)) as [x|err].
    + destruct (IH x) as [Htail Hlen']. split.
      * apply Forall_app. split; [done|].
        eapply Forall_impl; [exact Htail|].
        intros ef (t' & Hin & ->). exists t'. split; [by right|done].
      * lia.
    + rewrite app_nil_r. split; [done|]. simpl. lia.
Qed.

Lemma applyTransform_not_object this value transform :
  is_object transform = false →
  applyTransform this value transform = throw TypeError.
Proof. intros Hobj. by destruct transform. Qed.

(** X3. An array of transforms with an entry that is not an object or an
    array ([null], a string, a number, a boolean) never gives a value:
    [applyTransforms] throws, at that entry if not before. *)
Theorem applyTransforms_bad_entry this value (ts1 ts2 : list JsVal) transform :
  is_object transform = false →
  ∃ err, outcome (applyTransforms this value (JArr (ts1 ++ transform :: ts2)))
         = Throw err.
Proof.
  intros Hobj. rewrite applyTransforms_array, Array_reduce_app.
  apply outcome_bind_throw. intros x. simpl.
  rewrite applyTransform_not_object by done. by exists TypeError.
Qed.

Lemma applyTransform_string_dispatch this value (m : gmap string JsVal) :
  m !! "object" = None → is_Some (m !! "from") → is_Some (m !! "to") →
  applyTransform this value (JObj m) = applyStringTransform value (JObj m).
Proof.
  intros Hobject Hfrom Hto. unfold applyTransform, js_in.
  rewrite Hobject. change (bool_decide (is_Some (@None JsVal))) with false.
  rewrite !bool_decide_eq_true_2 by done.
  by rewrite !Eff_bind_ret_l.
Qed.

Lemma applyTransform_object_dispatch this value (m : gmap string JsVal) :
  is_Some (m !! "object") →
  applyTransform this value (JObj m) = applyObjectTransform this value (JObj m).
Proof.
  intros Hobject. unfold applyTransform.
  destruct (js_in_object "from" (JObj m) eq_refl) as [b2 ->].
  destruct (js_in_object "to" (JObj m) eq_refl) as [b3 ->].
  unfold js_in. rewrite bool_decide_eq_true_2 by done.
  by destruct b2, b3; rewrite !Eff_bind_ret_l.
Qed.

Lemma applyStringTransform_literal (s : string) (m : gmap string JsVal) :
  truthy (js_get (JObj m) "regex") = false →
  applyStringTransform (JStr s) (JObj m)
  = mret (JStr (Array_join (String_split s (js_get (JObj m) "from"))
                           (js_get (JObj m) "to"))).
Proof.
  intros Hregex. unfold applyStringTransform.
  rewrite member_not_nullish, Eff_bind_ret_l by done. by rewrite Hregex.
Qed.

(** X4. A string transform, with or without [regex], applied to a value
    that is not a string throws and logs nothing; without [regex] the
    exception is a [TypeError]. *)
Theorem applyTransform_string_on_non_string this value (m : gmap string JsVal) :
  isString value = false →
  m !! "object" = None → is_Some (m !! "from") → is_Some (m !! "to") →
  ∃ err, applyTransform this value (JObj m) = throw err ∧
         (truthy (js_get (JObj m) "regex") = false → err = TypeError).
Proof.
  intros Hvalue Hobject Hfrom Hto.
  rewrite applyTransform_string_dispatch by done.
  unfold applyStringTransform.
  rewrite member_not_nullish, Eff_bind_ret_l by done.
  destruct (truthy (js_get (JObj m) "regex")).
  - destruct (RegExp_new _ _) as [p|err].
    + exists TypeError. split; [|done].
      change (lift (Normal p)) with (mret (M:=Eff) p).
      rewrite Eff_bind_ret_l. by destruct value.
    + by exists err.
  - exists TypeError. split; [|done]. by destruct value.
Qed.

(** X5. When the pattern of a [regex] transform is malformed, the transform
    throws the engine's exception for every value, a string or not: the
    pattern is built before the value is looked at. *)
Theorem applyStringTransform_bad_pattern value transform (err : JsError) :
  truthy (js_get transform "regex") = true →
  (∀ flags, RegExp_new (js_get transform "from") flags = Throw err) →
  applyStringTransform value transform = throw err.
Proof.
  intros Hregex Hpattern.
  assert (is_nullish transform = false) as Ht by (by destruct transform).
  unfold applyStringTransform.
  rewrite member_not_nullish, Eff_bind_ret_l, Hregex by done.
  by rewrite Hpattern.
Qed.

Lemma join_strings_chars (s : string) :
  join_strings "" ((λ ch, String ch "") <$> String.list_ascii_of_string s) = s.
Proof.
  induction s as [|a s IH]; [done|].
  cbn [String.list_ascii_of_string fmap list_fmap].
  destruct s as [|b s]; [done|].
  rewrite join_strings_cons by done. by rewrite IH.
Qed.

(** X6. A literal transform whose [to] is the same string as its [from]
    leaves every string as it is, also when that string is empty. *)
Theorem applyTransform_same_from_to this (m : gmap string JsVal) (s f : string) :
  m !! "object" = None →
  m !! "from" = Some (JStr f) →
  m !! "to" = Some (JStr f) →
  truthy (js_get (JObj m) "regex") = false →
  applyTransform this (JStr s) (JObj m) = mret (JStr s).
Proof.
  intros Hobject Hfrom Hto Hregex.
  rewrite applyTransform_string_dispatch by (by rewrite ?Hfrom, ?Hto).
  rewrite applyStringTransform_literal by done.
  unfold js_get, own_props. rewrite Hfrom, Hto. cbn [default from_option id].
  unfold String_split, Array_join. cbn [ToString].
  do 2 f_equal. case_bool_decide as Hf.
  - subst f. apply join_strings_chars.
  - by apply join_split_from.
Qed.

Lemma split_from_absent (sep s : string) :
  ¬ occurs sep s → split_from sep 0 s = [s].
Proof.
  induction s as [|a s IH]; intros Hno; [done|].
  cbn [split_from].
  destruct (String.prefix sep (String a s)) eqn:Hp.
  - destruct Hno. apply prefix_inv in Hp as [r Hr].
    exists "", r. by rewrite append_nil_l.
  - rewrite IH; [done|].
    intros (p & r & ->). apply Hno. by exists (String a p), r.
Qed.

(** X7. A literal transform whose [from] does not occur in the string
    leaves the string as it is, whatever its [to]. *)
Theorem applyTransform_from_absent this (m : gmap string JsVal) (s f : string)
    (to : JsVal) :
  m !! "object" = None →
  m !! "from" = Some (JStr f) →
  m !! "to" = Some to →
  truthy (js_get (JObj m) "regex") = false →
  ¬ occurs f s →
  applyTransform this (JStr s) (JObj m) = mret (JStr s).
Proof.
  intros Hobject Hfrom Hto Hregex Hno.
  rewrite applyTransform_string_dispatch by (by rewrite ?Hfrom, ?Hto).
  rewrite applyStringTransform_literal by done.
  unfold js_get, own_props. rewrite Hfrom, Hto. cbn [default from_option id].
  unfold String_split. cbn [ToString].
  rewrite bool_decide_eq_false_2.
  - rewrite split_from_absent by done. by destruct to.
  - intros ->. apply Hno. exists "", s. by rewrite !append_nil_l.
Qed.

(** X8. A transform with an [object] key holding a map of templates is
    applied as an object transform to every value, a string or not, even
    when it also has [from], [to] and [regex], and logs nothing: when every
    template resolves it returns the resolved templates under their keys
    (a key named [__proto__] apart), and when one does not it throws. *)
Theorem applyTransform_object_wins this value (m tm : gmap string JsVal) :
  m !! "object" = Some (JObj tm) →
  effects (applyTransform this value (JObj m)) = [] ∧
  ((∀ key template, tm !! key = Some template →
      ∃ resolved, resolve_template this value template = Normal resolved) →
   applyTransform this value (JObj m)
   = mret (JObj (omap (λ template, normal (resolve_template this value template))
                      (delete "__proto__" tm)))) ∧
  ((∃ key template err,
      tm !! key = Some template ∧
      resolve_template this value template = Throw err) →
   ∃ err, applyTransform this value (JObj m) = throw err).
Proof.
  intros Hobject.
  assert (js_get (JObj m) "object" = JObj tm) as Hget.
  { unfold js_get, own_props. by rewrite Hobject. }
  rewrite applyTransform_object_dispatch by (by rewrite Hobject).
  split; [apply effects_applyObjectTransform|]. split.
  - intros Hresolve. by apply applyObjectTransform_resolved.
  - intros Hthrow. by apply (applyObjectTransform_unresolved _ _ _ tm).
Qed.

(** X9. A transform whose [object] key holds [null] or [undefined] throws a
    [TypeError]; one whose [object] has no properties of its own (a number,
    a boolean, an empty object, array or string) gives the empty object. *)
Theorem applyTransform_object_without_templates this value
    (m : gmap string JsVal) (object : JsVal) :
  m !! "object" = Some object →
  (is_nullish object = true →
     applyTransform this value (JObj m) = throw TypeError) ∧
  (is_nullish object = false → own_props object = ∅ →
     applyTransform this value (JObj m) = mret (JObj ∅)).
Proof.
  intros Hobject.
  rewrite applyTransform_object_dispatch by (by rewrite Hobject).
  unfold applyObjectTransform.
  rewrite member_not_nullish, Eff_bind_ret_l by done.
  assert (js_get (JObj m) "object" = object) as ->.
  { unfold js_get, own_props. by rewrite Hobject. }
  split.
  - intros Hnull. unfold Object_keys. by rewrite Hnull.
  - intros Hnull Hempty.
    rewrite Object_keys_not_nullish, Eff_bind_ret_l by done.
    by rewrite Hempty, map_to_list_empty.
Qed.

End MoreTransforms.

(** ** Further properties of the change pipeline *)

Lemma pretty_N_go_head (x : N) (s : string) (c : Ascii.ascii) (k : string) :
  (∀ d, c ≠ pretty_N_char d) → s ≠ String c k → pretty_N_go x s ≠ String c k.
Proof.
  intros Hc. revert s. induction (N.lt_wf_0 x) as [x _ IH]. intros s Hs.
  assert (x = 0 ∨ 0 < x)%N as [->|Hx] by lia.
  - by rewrite pretty_N_go_0.
  - rewrite pretty_N_go_step by done. apply IH; [by apply N.div_lt|].
    intros [= Hd _]. by apply (Hc (x `mod` 10)%N).
Qed.

(** The decimal numeral of an index starts with a digit. *)
Lemma pretty_nat_head (i : nat) (c : Ascii.ascii) (k : string) :
  (∀ d, c ≠ pretty_N_char d) → pretty i ≠ String c k.
Proof.
  intros Hc. unfold pretty, pretty_nat, pretty, pretty_N. case_decide.
  - intros [= Hd _]. by apply (Hc 0%N).
  - by apply pretty_N_go_head.
Qed.

Lemma imap_key_absent {A} (f : nat → A → JsVal) (l : list A)
    (c : Ascii.ascii) (k : string) :
  (∀ d, c ≠ pretty_N_char d) →
  (list_to_map (imap (λ i x, (pretty i, f i x)) l) : gmap string JsVal)
    !! String c k = None.
Proof.
  intros Hc. apply not_elem_of_list_to_map_1.
  intros ([key y] & Hkey & Hin)%list_elem_of_fmap.
  apply elem_of_lookup_imap in Hin as (i & x & [= -> ->] & _).
  simpl in Hkey. by apply (pretty_nat_head i c k).
Qed.

(** A value that is not a plain object has no own property whose name
    starts with a letter. *)
Lemma own_props_letter (v : JsVal) (c : Ascii.ascii) (k : string) :
  (∀ m, v ≠ JObj m) → (∀ d, c ≠ pretty_N_char d) →
  own_props v !! String c k = None.
Proof.
  intros Hv Hc. destruct v as [| | | |s|l|m]; try done.
  - by apply (imap_key_absent (λ _ ch, JStr (String ch ""))).
  - by apply (imap_key_absent (λ _ x, x)).
  - by destruct (Hv m).
Qed.

Ltac not_digit :=
  let d := fresh "d" in
  intros d; unfold pretty_N_char; repeat case_match; discriminate.

Section MoreEvents.
Context `{Externals}.
Implicit Types (this : Component) (a : Attrs) (evs : list Event).

(** X10. [parseValue] throws a [TypeError] on [null] and [undefined]; on
    every other event it returns a value, and that value is never
    [undefined]. *)
Theorem parseValue_defined (e : JsVal) :
  (is_nullish e = true → parseValue e = throw TypeError) ∧
  (is_nullish e = false → ∃ v, parseValue e = mret v ∧ v ≠ JUndefined).
Proof.
  split; intros He; unfold parseValue.
  - by rewrite member_nullish.
  - rewrite member_not_nullish, Eff_bind_ret_l by done.
    eexists. split; [reflexivity|].
    unfold lodash_find. cbn [List.find].
    destruct (js_get e "value"); try done;
      destruct (lodash_get e "target.value"); try done;
      by destruct e.
Qed.

(** X11. Data that is not a plain object (a string, a boolean, a number,
    an array) is its own parsed value. *)
Theorem parseValue_not_object (data : JsVal) :
  (∀ m, data ≠ JObj m) → is_nullish data = false →
  parseValue data = mret data.
Proof.
  intros Hdata Hnull.
  assert (∀ key, key ≠ "length" →
            (∃ c k, key = String c k ∧ ∀ d, c ≠ pretty_N_char d) →
            js_get data key = JUndefined) as Hget.
  { intros key Hkey (c & k & -> & Hc).
    pose proof (own_props_letter data c k Hdata Hc) as Hnone.
    unfold js_get.
    destruct data; rewrite ?(bool_decide_eq_false_2 _ Hkey), Hnone; done. }
  unfold parseValue.
  rewrite member_not_nullish, Eff_bind_ret_l by done.
  rewrite (Hget "value")
    by (done || (do 2 eexists; split; [reflexivity|not_digit])).
  unfold lodash_get. rewrite Hnull.
  rewrite (own_props_letter data _ "arget.value") by (done || not_digit).
  change (bool_decide (is_Some (@None JsVal))) with false.
  change (split_from "." 0 "target.value") with ["target"; "value"].
  cbn [baseGet]. rewrite Hnull.
  rewrite (Hget "target")
    by (done || (do 2 eexists; split; [reflexivity|not_digit])).
  by destruct data.
Qed.

(** X12. With no write transforms configured ([undefined], [null] or an
    empty array), [onChange] passes the parsed value on untouched: nothing
    happens when it equals the committed value, else the parent is called
    once with it, and nothing is logged. *)
Theorem onChange_without_write_transforms this (e v : JsVal) :
  parseValue e = mret v →
  ember_get (cellConfig this) "transforms.write" = JUndefined ∨
  ember_get (cellConfig this) "transforms.write" = JNull ∨
  ember_get (cellConfig this) "transforms.write" = JArr [] →
  onChange this e
  = if bool_decide (v = value this) then mret ()
    else perform (CallOnChange (bunsenId this) v).
Proof.
  intros Hparse Hnone. unfold onChange.
  rewrite Hparse, Eff_bind_ret_l.
  assert (applyTransforms this v (ember_get (cellConfig this) "transforms.write")
          = mret v) as ->.
  { by destruct Hnone as [-> | [-> | ->]]. }
  rewrite Eff_bind_ret_l. unfold isEqual.
  by destruct (bool_decide (v = value this)).
Qed.

(** X13. When the parsed value is not a string and the first write
    transform is a string transform, [onChange] throws before it calls the
    parent, and logs nothing. *)
Theorem onChange_non_string_write this (e v : JsVal)
    (m : gmap string JsVal) (ts : list JsVal) :
  parseValue e = mret v →
  isString v = false →
  ember_get (cellConfig this) "transforms.write" = JArr (JObj m :: ts) →
  m !! "object" = None → is_Some (m !! "from") → is_Some (m !! "to") →
  ∃ err, onChange this e = throw err.
Proof.
  intros Hparse Hv Hwrite Hobject Hfrom Hto. unfold onChange.
  rewrite Hparse, Eff_bind_ret_l, Hwrite.
  rewrite applyTransforms_array. cbn [Array_reduce].
  assert (∃ err, applyStringTransform v (JObj m) = throw err) as [err Herr].
  { unfold applyStringTransform.
    rewrite member_not_nullish, Eff_bind_ret_l by done.
    destruct (truthy (js_get (JObj m) "regex")).
    - destruct (RegExp_new _ _) as [p|err]; [|by exists err].
      exists TypeError.
      change (lift (Normal p)) with (mret (M:=Eff) p).
      rewrite Eff_bind_ret_l. by destruct v.
    - exists TypeError. by destruct v. }
  exists err.
  rewrite (applyTransform_string_dispatch this v m Hobject Hfrom Hto), Herr.
  by rewrite !Eff_bind_throw.
Qed.

(** *** Histories of events *)

Lemma set_showErrorMessage_twice this (x y : JsVal) :
  set_showErrorMessage (set_showErrorMessage this x) y = set_showErrorMessage this y.
Proof. done. Qed.

Lemma set_showErrorMessage_same this :
  set_showErrorMessage this (showErrorMessage this) = this.
Proof. by destruct this. Qed.

Lemma dispatch_only_flag this (ev : Event) :
  (dispatch this ev).1
  = set_showErrorMessage this (showErrorMessage (dispatch this ev).1).
Proof.
  destruct ev; simpl; unfold onFocusOut, onFocusIn;
    try destruct (truthy (showErrorMessage this)); simpl;
    by rewrite ?set_showErrorMessage_same.
Qed.

(** X14. No event changes anything of a component but its error-display
    flag: the value, the configuration, the id, the hook and the messages
    stay as they were through every history. *)
Theorem run_only_flag this evs :
  (run this evs).1
  = set_showErrorMessage this (showErrorMessage (run this evs).1).
Proof.
  induction evs as [|ev evs IH] using rev_ind.
  - simpl. by rewrite set_showErrorMessage_same.
  - rewrite run_snoc. cbn [fst].
    rewrite (dispatch_only_flag (run this evs).1 ev) at 1.
    rewrite IH at 1. apply set_showErrorMessage_twice.
Qed.

Lemma run_app this evs1 evs2 :
  (run this (evs1 ++ evs2)).1 = (run (run this evs1).1 evs2).1.
Proof.
  induction evs2 as [|ev evs2 IH] using rev_ind.
  - by rewrite app_nil_r.
  - by rewrite app_assoc, !run_snoc, IH.
Qed.

Lemma run_no_focus this evs :
  Forall (λ ev, is_focus ev = false) evs → (run this evs).1 = this.
Proof.
  induction evs as [|ev evs IH] using rev_ind; intros Hevs; [done|].
  apply Forall_app in Hevs as [Hevs Hev].
  apply (proj1 (Forall_singleton _ _)) in Hev.
  rewrite run_snoc. cbn [fst]. rewrite IH by done.
  by destruct ev; simpl in *.
Qed.

(** X15. After a history the flag is what the last focus event made it:
    [true] when that was a focus-out, [false] when it was a focus-in, and
    [false] when the component never had a focus event. *)
Theorem flag_after_last_focus a evs1 evs2 :
  Forall (λ ev, is_focus ev = false) evs2 →
  showErrorMessage (run (create a) (evs1 ++ FocusOut :: evs2)).1 = JBool true ∧
  showErrorMessage (run (create a) (evs1 ++ FocusIn :: evs2)).1 = JBool false ∧
  showErrorMessage (run (create a) evs2).1 = JBool false.
Proof.
  intros Hevs2.
  destruct (create_fields a) as (Hflag0 & _ & _).
  assert (∀ ev, (run (create a) (evs1 ++ ev :: evs2)).1
                = (dispatch (run (create a) evs1).1 ev).1) as Hlast.
  { intros ev. rewrite (run_app _ evs1 (ev :: evs2)).
    change (ev :: evs2) with (([ev] ++ evs2)%list).
    rewrite (run_app _ [ev] evs2). by rewrite run_no_focus. }
  rewrite !Hlast, (run_no_focus (create a) evs2) by done.
  split; [|split; [|done]].
  - simpl. unfold onFocusOut.
    by destruct (run_flag (create a) evs1) as [Hf|Hf]; [by left|..]; rewrite Hf.
  - simpl. unfold onFocusIn.
    by destruct (run_flag (create a) evs1) as [Hf|Hf]; [by left|..]; rewrite Hf.
Qed.

Lemma onChange_notifications this (e : JsVal) :
  notifications (effects (onChange this e)) = [] ∨
  ∃ w, w ≠ value this ∧
       notifications (effects (onChange this e)) = [(bunsenId this, w)].
Proof.
  rewrite onChange_bind.
  set (written := parseValue e ≫= _).
  assert (silent written) as Hsilent.
  { apply silent_bind; [apply silent_parseValue|].
    intros ?. apply silent_applyTransforms. }
  assert (∀ k : JsVal → Eff (),
            notifications (effects (written ≫= k))
            = match outcome written with
              | Normal w => notifications (effects (k w))
              | Throw _ => []
              end) as ->.
  { intros k. rewrite effects_bind, notifications_app, Hsilent.
    by destruct (outcome written). }
  destruct (outcome written) as [w|err]; [|by left].
  unfold isEqual. case_bool_decide as Hw; [by left|].
  right. by exists w.
Qed.

Lemma run_kept this evs :
  bunsenId (run this evs).1 = bunsenId this ∧
  value (run this evs).1 = value this.
Proof.
  induction evs as [|ev evs IH] using rev_ind; [done|].
  rewrite run_snoc. cbn [fst].
  rewrite (dispatch_only_flag (run this evs).1 ev). exact IH.
Qed.

(** X16. Through every history the parent is only ever called with the
    id of the field and a value that differs from the committed one, and at
    most once for each change event. *)
Theorem run_notifications this evs :
  Forall (λ n, n.1 = bunsenId this ∧ n.2 ≠ value this)
         (notifications (run this evs).2) ∧
  (length (notifications (run this evs).2) ≤ length (filter is_change evs))%nat.
Proof.
  induction evs as [|ev evs [IHall IHlen]] using rev_ind.
  - split; [constructor|done].
  - rewrite run_snoc. cbn [snd].
    rewrite notifications_app, length_app, filter_app, length_app.
    destruct (run_kept this evs) as [Hid Hvalue].
    destruct ev as [| | |e]; simpl; rewrite ?app_nil_r; try (split; [done|lia]).
    destruct (onChange_notifications (run this evs).1 e) as [-> | (w & Hw & ->)].
    + rewrite app_nil_r. split; [done|simpl; lia].
    + split; [|simpl; lia].
      apply Forall_app. split; [done|].
      repeat constructor; simpl; congruence.
Qed.

End MoreEvents.

(** ** The hook, the class names and the label *)

Lemma split_from_last_segment (p q : string) :
  ¬ occurs "." q →
  ∃ l, l ≠ [] ∧ split_from "." 0 (p +:+ "." +:+ q) = (l ++ [q])%list.
Proof.
  intros Hq. induction p as [|c p (l & Hl & IH)].
  - exists [""]. split; [done|].
    rewrite append_nil_l, split_from_occurrence by done.
    by rewrite split_from_absent.
  - rewrite append_cons. cbn [split_from].
    destruct (String.prefix "." (String c (p +:+ "." +:+ q))).
    + exists ("" :: l). split; [done|]. cbn [String.length Nat.sub].
      by rewrite IH.
    + rewrite IH. destruct l as [|x l]; [done|].
      by exists (String c x :: l).
Qed.

Section Hook.
Implicit Types (this : Component).

Lemma init_after_super (_super : Component → Eff Component) this this' :
  outcome (_super this) = Normal this' →
  init _super this
  = mkEff (effects (_super this) ++ effects (init mret this'))
          (outcome (init mret this')).
Proof.
  intros Hsuper. unfold init. rewrite Eff_bind_ret_l.
  unfold mbind at 1. unfold Eff_bind. by rewrite Hsuper.
Qed.

(** X17. [init] throws only when the [init] of the superclass does. After
    it, when [bunsenId] is a string [init] only sets the hook and logs
    nothing more; when it is not, the [TypeError] is caught and logged at
    debug level and the component stays as the superclass left it. *)
Theorem init_throws_only_in_super (_super : Component → Eff Component) this :
  (∀ err, outcome (_super this) = Throw err →
     init _super this = mkEff (effects (_super this)) (Throw err)) ∧
  (∀ this', outcome (_super this) = Normal this' →
     (isString (bunsenId this') = true →
        ∃ h, init _super this
             = mkEff (effects (_super this)) (Normal (set_hook this' (JStr h)))) ∧
     (isString (bunsenId this') = false →
        init _super this
        = mkEff (effects (_super this) ++ [LogDebugError TypeError])
                (Normal this'))).
Proof.
  split.
  - intros err Hsuper. unfold init, mbind, Eff_bind. by rewrite Hsuper.
  - intros this' Hsuper. rewrite (init_after_super _ _ _ Hsuper).
    unfold init, try_catch. rewrite Eff_bind_ret_l.
    split; intros Hid; destruct (bunsenId this'); try done.
    eexists. rewrite Eff_bind_ret_l. cbn [effects outcome mret Eff_ret].
    by rewrite app_nil_r.
Qed.

(** X18. The hook [init] sets is the form's hook, a dash, and the part of
    [bunsenId] after its last dot, or all of [bunsenId] when it has no dot,
    as the superclass left them. A form hook that is [undefined] gives the
    text ["undefined"]. *)
Theorem init_hook_last_segment (_super : Component → Eff Component)
    this this' (p q : string) :
  outcome (_super this) = Normal this' →
  ¬ occurs "." q →
  bunsenId this' = JStr q ∨ bunsenId this' = JStr (p +:+ "." +:+ q) →
  init _super this
  = mkEff (effects (_super this))
          (Normal (set_hook this' (JStr (ToString (formHook this') +:+ "-" +:+ q)))).
Proof.
  intros Hsuper Hq Hid.
  assert (∃ id, bunsenId this' = JStr id ∧
                last (String_split id (JStr ".")) = Some q) as (id & Hstr & Hlast).
  { unfold String_split. cbn [ToString].
    rewrite bool_decide_eq_false_2 by done.
    destruct Hid as [Hid|Hid]; eexists; (split; [exact Hid|]).
    - by rewrite split_from_absent.
    - destruct (split_from_last_segment p q Hq) as (l & _ & ->).
      apply last_snoc. }
  rewrite (init_after_super _ _ _ Hsuper).
  unfold init, try_catch. rewrite Eff_bind_ret_l, Hstr, Eff_bind_ret_l.
  cbn [effects outcome mret Eff_ret]. by rewrite Hlast, app_nil_r.
Qed.

End Hook.

Section ClassNames.
Context `{Externals}.
Implicit Types (this : Component) (a : Attrs) (evs : list Event).

Lemma valueClassName_of_flag this :
  valueClassName_of this
  = if truthy (errorMessage this) &&
       (truthy (showAllErrors this) || truthy (showErrorMessage this))
    then JStr "error" else JStr "".
Proof.
  unfold valueClassName_of, valueClassName, renderErrorMessage_of, renderErrorMessage.
  destruct (truthy (showAllErrors this)), (truthy (showErrorMessage this));
    simpl; by destruct (truthy (errorMessage this)).
Qed.

(** X19. The input has the class [error] exactly while an error message is
    there to show: never without a truthy error message, always after a
    focus-out with one, and not after a focus-in unless all errors are
    shown. *)
Theorem valueClassName_follows_focus a evs :
  (truthy (a_errorMessage a) = false →
     valueClassName_of (run (create a) evs).1 = JStr "") ∧
  (truthy (a_errorMessage a) = true →
     valueClassName_of (run (create a) (evs ++ [FocusOut])).1 = JStr "error") ∧
  (truthy (a_showAllErrors a) = false →
     valueClassName_of (run (create a) (evs ++ [FocusIn])).1 = JStr "").
Proof.
  destruct (create_fields a) as (Hflag0 & Hmsg0 & Hall0).
  assert (∀ evs', errorMessage (run (create a) evs').1 = a_errorMessage a ∧
                  showAllErrors (run (create a) evs').1 = a_showAllErrors a) as Hkept.
  { intros evs'. destruct (run_fields (create a) evs') as [-> ->]. by split. }
  assert (showErrorMessage (run (create a) (evs ++ [FocusOut])).1 = JBool true
          ∧ showErrorMessage (run (create a) (evs ++ [FocusIn])).1 = JBool false)
    as [Hout Hin].
  { rewrite !run_snoc. cbn [fst dispatch]. unfold onFocusOut, onFocusIn.
    by destruct (run_flag (create a) evs) as [Hf|Hf]; [by left|..]; rewrite Hf. }
  repeat split; intros Hhyp; rewrite valueClassName_of_flag.
  - destruct (Hkept evs) as [-> _]. by rewrite Hhyp.
  - destruct (Hkept (evs ++ [FocusOut])%list) as [-> _].
    rewrite Hhyp, Hout. cbn [truthy]. by rewrite orb_true_r.
  - destruct (Hkept (evs ++ [FocusIn])%list) as [_ ->].
    rewrite Hhyp, Hin. cbn [truthy orb]. by rewrite andb_false_r.
Qed.

End ClassNames.

Lemma truthy_js_or (x y : JsVal) : truthy (js_or x y) = truthy x || truthy y.
Proof. unfold js_or. by destruct (truthy x) eqn:Hx; rewrite ?Hx. Qed.

(** X20. The wrapper class names are never empty or missing: each is the
    configured class name when that is truthy, else its default,
    [left-input] or [left-label]. *)
Theorem wrapper_class_names (cellConfig : JsVal) :
  truthy (inputWrapperClassName cellConfig) = true ∧
  truthy (labelWrapperClassName cellConfig) = true ∧
  (truthy (lodash_get cellConfig "classNames.value") = false →
     inputWrapperClassName cellConfig = JStr "left-input") ∧
  (truthy (lodash_get cellConfig "classNames.label") = false →
     labelWrapperClassName cellConfig = JStr "left-label").
Proof.
  unfold inputWrapperClassName, labelWrapperClassName.
  rewrite !truthy_js_or.
  change (js_get defaultClassNames "inputWrapper") with (JStr "left-input").
  change (js_get defaultClassNames "labelWrapper") with (JStr "left-label").
  repeat split; try apply orb_true_r; intros Hfalsy; unfold js_or; by rewrite Hfalsy.
Qed.

(** X21. [disabled] is truthy exactly when the form is disabled or the
    cell's [disabled] is truthy, and a disabled form gives [formDisabled]
    itself whatever the cell says, also for a cell configuration that is
    [null] or [undefined]. *)
Theorem disabled_form_or_cell (formDisabled cellConfig : JsVal) :
  truthy (disabled formDisabled cellConfig)
  = truthy formDisabled || truthy (lodash_get cellConfig "disabled") ∧
  (truthy formDisabled = true → disabled formDisabled cellConfig = formDisabled) ∧
  (is_nullish cellConfig = true →
     truthy (disabled formDisabled cellConfig) = truthy formDisabled).
Proof.
  unfold disabled. rewrite truthy_js_or. repeat split.
  - intros Hform. unfold js_or. by rewrite Hform.
  - intros Hnull. unfold lodash_get. rewrite Hnull. apply orb_false_r.
Qed.

Section Label.
Context `{LabelExternals}.

Lemma lodash_defaults_two (cellConfig defaults : JsVal) (k : string) :
  lodash_defaults ∅ [cellConfig; defaults] !! k
  = match own_props cellConfig !! k with
    | Some v =>
        Some (if isUndefined v
              then default v (own_props defaults !! k) else v)
    | None => own_props defaults !! k
    end.
Proof.
  unfold lodash_defaults. cbn [foldl].
  rewrite !lookup_union_with, lookup_empty.
  destruct (own_props cellConfig !! k) as [v|], (own_props defaults !! k) as [d|];
    try done; simpl; by destruct (isUndefined v).
Qed.

(** X22. The label is resolved from the first of: the [label] property when
    it is truthy; the cell's [label] when the cell has one that is not
    [undefined], even [null] or empty; the [label] of the cell defaults. *)
Theorem renderLabel_precedence (bunsenId cellConfig label bunsenModel : JsVal) :
  (truthy label = true →
     renderLabel bunsenId cellConfig label bunsenModel
     = getLabel label bunsenModel bunsenId) ∧
  (truthy label = false →
   ∀ v, own_props cellConfig !! "label" = Some v → v ≠ JUndefined →
     renderLabel bunsenId cellConfig label bunsenModel
     = getLabel v bunsenModel bunsenId) ∧
  (truthy label = false →
   own_props cellConfig !! "label" = None ∨
   own_props cellConfig !! "label" = Some JUndefined →
     renderLabel bunsenId cellConfig label bunsenModel
     = getLabel (default JUndefined (own_props getCellDefaults !! "label"))
                bunsenModel bunsenId).
Proof.
  unfold renderLabel, js_or. repeat split.
  - by intros ->.
  - intros -> v Hv Hdefined. unfold js_get. cbn [own_props].
    rewrite lodash_defaults_two, Hv. by destruct v.
  - intros -> Hnone. unfold js_get. cbn [own_props].
    rewrite lodash_defaults_two.
    destruct Hnone as [-> | ->]; [done|].
    by destruct (own_props getCellDefaults !! "label").
Qed.

End Label.

(** ** The further properties at sample values *)

(** A separator that occurs cuts the string in at least two pieces. *)
Lemma occurs_split_from (sep s : string) :
  sep ≠ "" → occurs sep s → (2 ≤ length (split_from sep 0 s))%nat.
Proof.
  intros Hsep (p & r & ->). induction p as [|c p IH].
  - rewrite append_nil_l, split_from_occurrence by done.
    pose proof (split_from_not_nil sep 0 r).
    destruct (split_from sep 0 r); [done|simpl; lia].
  - rewrite append_cons. cbn [split_from].
    destruct (String.prefix sep (String c (p +:+ sep +:+ r))).
    + pose proof (split_from_not_nil sep (String.length sep - 1) (p +:+ sep +:+ r)).
      destruct (split_from sep (String.length sep - 1) (p +:+ sep +:+ r));
        [done|simpl; lia].
    + destruct (split_from sep 0 (p +:+ sep +:+ r)); simpl in *; lia.
Qed.

Section MoreSamples.
#[local] Existing Instance literal_externals.

Lemma applyTransforms_bad_entry_witness :
  ∃ err, outcome (applyTransforms (create sample_attrs) (JStr "aa")
                    (JArr ([JObj literal_transform] ++ JNull :: [JObj literal_transform])))
         = Throw err.
Proof. apply applyTransforms_bad_entry. reflexivity. Defined.

Lemma applyTransform_string_on_non_string_witness :
  applyTransform (create sample_attrs) (JNum 5) (JObj literal_transform)
  = throw TypeError.
Proof.
  destruct (applyTransform_string_on_non_string (create sample_attrs) (JNum 5)
              literal_transform) as (err & Happly & Herr);
    [reflexivity|vm_compute; reflexivity|vm_compute; eauto|vm_compute; eauto|].
  rewrite Happly, Herr; [reflexivity|vm_compute; reflexivity].
Defined.

Lemma applyStringTransform_bad_pattern_witness :
  applyStringTransform (H:=strict_externals) (JNum 1)
    (object_of [("from", JStr "("); ("to", JStr "x"); ("regex", JBool true)])
  = throw SyntaxError.
Proof.
  apply (applyStringTransform_bad_pattern (H:=strict_externals));
    [vm_compute; reflexivity|intros flags; vm_compute; reflexivity].
Defined.

Lemma applyTransform_same_from_to_witness :
  applyTransform (create sample_attrs) (JStr "axbx")
    (JObj (list_to_map [("from", JStr "x"); ("to", JStr "x")]))
  = mret (JStr "axbx").
Proof.
  apply (applyTransform_same_from_to _ _ "axbx" "x"); vm_compute; reflexivity.
Defined.

Lemma applyTransform_from_absent_witness :
  applyTransform (create sample_attrs) (JStr "hello") (JObj literal_transform)
  = mret (JStr "hello").
Proof.
  apply (applyTransform_from_absent _ _ "hello" "an" (JStr "o"));
    try (vm_compute; reflexivity).
  intros Hoccurs. apply occurs_split_from in Hoccurs; [|discriminate].
  vm_compute in Hoccurs. lia.
Defined.

Lemma applyTransform_object_wins_witness :
  applyTransform (create sample_attrs) (JNum 7)
    (JObj (list_to_map [("object", object_of [("label", JStr "${id}: ${value}")]);
                        ("from", JStr "a"); ("to", JStr "b")]))
  = mret (object_of [("label", JStr "foo.bar: 7")]) ∧
  ∃ err, applyTransform (create sample_attrs) (JNum 7)
           (JObj (list_to_map [("object", object_of [("n", JNum 5)])]))
         = throw err.
Proof.
  split.
  - destruct (applyTransform_object_wins (create sample_attrs) (JNum 7)
                (list_to_map [("object", object_of [("label", JStr "${id}: ${value}")]);
                              ("from", JStr "a"); ("to", JStr "b")])
                {[ "label" := JStr "${id}: ${value}" ]})
      as (_ & Hresolved & _); [vm_compute; reflexivity|].
    rewrite Hresolved; [vm_compute; reflexivity|].
    intros key template [<- <-]%lookup_singleton_Some.
    eexists. vm_compute. reflexivity.
  - destruct (applyTransform_object_wins (create sample_attrs) (JNum 7)
                (list_to_map [("object", object_of [("n", JNum 5)])])
                {[ "n" := JNum 5 ]})
      as (_ & _ & Hthrows); [vm_compute; reflexivity|].
    apply Hthrows. exists "n", (JNum 5), TypeError.
    split; vm_compute; reflexivity.
Defined.

Lemma applyTransform_object_without_templates_witness :
  applyTransform (create sample_attrs) (JStr "v") (object_of [("object", JNull)])
  = throw TypeError ∧
  applyTransform (create sample_attrs) (JStr "v") (object_of [("object", JNum 5)])
  = mret (JObj ∅).
Proof.
  split.
  - apply (applyTransform_object_without_templates _ _ _ JNull);
      vm_compute; reflexivity.
  - apply (applyTransform_object_without_templates _ _ _ (JNum 5));
      vm_compute; reflexivity.
Defined.

Lemma parseValue_defined_witness :
  parseValue JNull = throw TypeError ∧
  ∃ v, parseValue (JStr "abc") = mret v ∧ v ≠ JUndefined.
Proof.
  split.
  - apply (parseValue_defined JNull). reflexivity.
  - apply (parseValue_defined (JStr "abc")). reflexivity.
Defined.

Lemma parseValue_not_object_witness :
  parseValue (JArr [JStr "a"; JStr "b"]) = mret (JArr [JStr "a"; JStr "b"]).
Proof. apply parseValue_not_object; [discriminate|reflexivity]. Defined.

Lemma onChange_without_write_transforms_witness :
  onChange (create plain_attrs) (JStr "xyz")
  = perform (CallOnChange (JStr "foo") (JStr "xyz")) ∧
  onChange (create plain_attrs) (JStr "abc") = mret ().
Proof.
  split.
  - rewrite (onChange_without_write_transforms _ (JStr "xyz") (JStr "xyz"));
      [vm_compute; reflexivity|vm_compute; reflexivity|left; vm_compute; reflexivity].
  - rewrite (onChange_without_write_transforms _ (JStr "abc") (JStr "abc"));
      [vm_compute; reflexivity|vm_compute; reflexivity|left; vm_compute; reflexivity].
Defined.

Lemma onChange_non_string_write_witness :
  ∃ err, onChange (create sample_attrs) (JBool true) = throw err.
Proof.
  apply (onChange_non_string_write _ (JBool true) (JBool true)
           (list_to_map [("from", JStr "a"); ("to", JStr "b")]) []);
    try (vm_compute; reflexivity); vm_compute; eauto.
Defined.

Lemma flag_after_last_focus_witness :
  showErrorMessage
    (run (create sample_attrs) ([FocusIn] ++ FocusOut :: [Change (JStr "z")])).1
  = JBool true ∧
  showErrorMessage
    (run (create sample_attrs) ([FocusIn] ++ FocusIn :: [Change (JStr "z")])).1
  = JBool false ∧
  showErrorMessage (run (create sample_attrs) [Change (JStr "z")]).1 = JBool false.
Proof. apply flag_after_last_focus. by repeat constructor. Defined.

Lemma init_throws_only_in_super_witness :
  (∃ h, init warning_super (construct sample_attrs)
        = mret (set_hook (construct sample_attrs) (JStr h))) ∧
  init warning_super (construct anonymous_attrs)
  = mkEff [LogWarn "Missing required property:" (JStr "bunsenId");
           LogDebugError TypeError]
          (Normal (construct anonymous_attrs)) ∧
  init (λ _, throw SyntaxError) (construct sample_attrs) = throw SyntaxError.
Proof.
  split; [|split].
  - destruct (init_throws_only_in_super warning_super (construct sample_attrs))
      as [_ Hafter].
    destruct (Hafter (construct sample_attrs) eq_refl) as [Hstring _].
    exact (Hstring eq_refl).
  - destruct (init_throws_only_in_super warning_super (construct anonymous_attrs))
      as [_ Hafter].
    destruct (Hafter (construct anonymous_attrs) eq_refl) as [_ Hother].
    exact (Hother eq_refl).
  - destruct (init_throws_only_in_super (λ _, throw SyntaxError)
                (construct sample_attrs)) as [Hthrows _].
    exact (Hthrows SyntaxError eq_refl).
Defined.

Lemma init_hook_last_segment_witness :
  init warning_super (construct sample_attrs)
  = mret (set_hook (construct sample_attrs) (JStr "form-bar")) ∧
  init mret (construct plain_attrs)
  = mret (set_hook (construct plain_attrs) (JStr "undefined-foo")).
Proof.
  split.
  - apply (init_hook_last_segment warning_super (construct sample_attrs)
             (construct sample_attrs) "foo" "bar");
      [reflexivity| |right; reflexivity].
    intros Hoccurs. apply occurs_split_from in Hoccurs; [|discriminate].
    vm_compute in Hoccurs. lia.
  - rewrite (init_hook_last_segment mret (construct plain_attrs)
               (construct plain_attrs) "" "foo");
      [reflexivity|reflexivity| |left; reflexivity].
    intros Hoccurs. apply occurs_split_from in Hoccurs; [|discriminate].
    vm_compute in Hoccurs. lia.
Defined.

Lemma valueClassName_follows_focus_witness :
  valueClassName_of (run (create plain_attrs) [FocusOut]).1 = JStr "" ∧
  valueClassName_of (run (create sample_attrs) ([Change (JStr "z")] ++ [FocusOut])).1
  = JStr "error" ∧
  valueClassName_of (run (create sample_attrs) ([FocusOut] ++ [FocusIn])).1 = JStr "".
Proof.
  split; [|split].
  - destruct (valueClassName_follows_focus plain_attrs [FocusOut])
      as (Hnone & _ & _).
    exact (Hnone eq_refl).
  - destruct (valueClassName_follows_focus sample_attrs [Change (JStr "z")])
      as (_ & Hout & _).
    exact (Hout eq_refl).
  - destruct (valueClassName_follows_focus sample_attrs [FocusOut])
      as (_ & _ & Hin).
    exact (Hin eq_refl).
Defined.

Lemma wrapper_class_names_witness :
  inputWrapperClassName (object_of [("classNames", object_of [("label", JStr "wide")])])
  = JStr "left-input" ∧
  labelWrapperClassName JUndefined = JStr "left-label".
Proof.
  split.
  - apply wrapper_class_names. vm_compute; reflexivity.
  - apply wrapper_class_names. reflexivity.
Defined.

Lemma disabled_form_or_cell_witness :
  disabled (JBool true) (object_of [("disabled", JBool false)]) = JBool true ∧
  truthy (disabled JUndefined JNull) = truthy JUndefined.
Proof.
  split.
  - apply disabled_form_or_cell. reflexivity.
  - apply disabled_form_or_cell. reflexivity.
Defined.

Lemma renderLabel_precedence_witness :
  renderLabel (H:=sample_labels) (JStr "foo")
    (object_of [("label", JStr "Cell")]) (JStr "Given") (object_of [])
  = JStr "Given" ∧
  renderLabel (H:=sample_labels) (JStr "foo")
    (object_of [("label", JStr "Cell")]) JUndefined (object_of [])
  = JStr "Cell" ∧
  renderLabel (H:=sample_labels) (JStr "foo") (object_of []) JUndefined (object_of [])
  = JStr "default label".
Proof.
  split; [|split].
  - apply (renderLabel_precedence (H:=sample_labels)). reflexivity.
  - apply (renderLabel_precedence (H:=sample_labels) _ _ _ _) with (v := JStr "Cell");
      [reflexivity|vm_compute; reflexivity|discriminate].
  - rewrite (proj2 (proj2 (renderLabel_precedence (H:=sample_labels) (JStr "foo")
               (object_of []) JUndefined (object_of []))));
      [vm_compute; reflexivity|reflexivity|left; vm_compute; reflexivity].
Defined.

End MoreSamples.
